(** * CloudstreamWin: plugin runtime and multi-provider orchestration

    A shallow embedding of the TypeScript core of the Electron application:

    - [ApiHolder]      core/api/ApiHolder.ts         (capability registry)
    - [SearchService]  core/services/searchService.ts (fan-out and merge)
    - [JVMBridge]      core/services/jvmBridge.ts     (sidecar RPC client)
    - [PluginLoader]   core/services/pluginLoader.ts  (install / uninstall)
    - [ResumeService]  core/services/resumeService.ts (resume positions)
    - [RepositoryService] core/services/repositoryService.ts (catalogues)
    - [PlayerPage]     pages/PlayerPage.tsx           (when a position is saved)

    JavaScript strings that are inspected character by character (plugin
    code, search queries) are lists of UTF-16 code units; names, URLs and
    storage keys, which are only compared and concatenated, are [string]s.
    JavaScript numbers that are computed with are IEEE-754 binary64 values
    ([float]); version numbers, which are only copied, are integers.  Everything
    outside the process (network, sidecar, IPC, evaluation of plugin code)
    is an oracle collected in the record [World]; every call made to it is
    appended to the [trace] of the state. *)

From Stdlib Require Import Floats Ascii String.
Set Warnings "-inexact-float".
From Equations Require Import Equations.
From Equations.Prop Require Logic.
From stdpp Require Import gmap strings list sorting.

Open Scope string_scope.
Open Scope list_scope.

(** ** JavaScript strings as sequences of UTF-16 code units *)

Definition jsstring := list N.

Definition js (s : string) : jsstring :=
  (fun a => N_of_ascii a) <$> String.list_ascii_of_string s.

(** [text.startsWith(p)] *)
Fixpoint startsWith (text p : jsstring) : bool :=
  match p, text with
  | [], _ => true
  | _ :: _, [] => false
  | c :: p', d :: text' => (c =? d)%N && startsWith text' p'
  end.

(** [text.substring(0, n)] for [0 <= n <= text.length] *)
Definition substring0 (n : nat) (text : jsstring) : jsstring := take n text.

(** ** core/api/MainAPI.ts

    A provider handle is a JavaScript object: [ref] is its identity (what
    [===] compares), [name] and [mainUrl] are the fields the core reads.
    What [search] and [quickSearch] do is decided by the [World]. *)

Record MainAPI := {
  ref : nat;
  name : string;
  mainUrl : string
}.

(** [p === q] on handles *)
Definition same_object (p q : MainAPI) : bool := bool_decide (ref p = ref q).

(** ** core/api/ApiHolder.ts *)

Module ApiHolder.

(** The private field [apis]. *)
Definition t := list MainAPI.

Definition empty : t := [].

(** [this.apis.find(api => api.name === name)] *)
Definition getApi (nm : string) (apis : t) : option MainAPI :=
  List.find (fun api => bool_decide (name api = nm)) apis.

(** [this.apis = this.apis.filter(p => p !== plugin)] *)
Definition removePlugin (plugin : MainAPI) (apis : t) : t :=
  List.filter (fun p => negb (same_object p plugin)) apis.

Definition addPlugin (plugin : MainAPI) (apis : t) : t :=
  let existing := List.find (fun api => bool_decide (name api = name plugin)) apis in
  let apis :=
    match existing with
    | Some existing => removePlugin existing apis
    | None => apis
    end in
  apis ++ [plugin].

(** [[...this.apis]]: a copy with the same elements in the same order. *)
Definition getAllApis (apis : t) : list MainAPI := apis.

(** Sequences of registry operations, as issued by the loader. *)
Inductive Op :=
| Register (plugin : MainAPI)
| Unregister (plugin : MainAPI).

Definition step (apis : t) (op : Op) : t :=
  match op with
  | Register plugin => addPlugin plugin apis
  | Unregister plugin => removePlugin plugin apis
  end.

Definition run (ops : list Op) : t := fold_left step ops empty.

End ApiHolder.

(** ** Plain JavaScript objects used as dictionaries

    [Record<string, V>]: the own properties in creation order.  Assigning
    to an existing key keeps its place; enumeration ([Object.values])
    lists the array-index keys first, in ascending numeric order, and then
    the remaining keys in creation order. *)

Module JsObject.
Section WithValue.
Context {V : Type}.

Definition t := list (string * V).

Definition empty : t := [].

(** Assignment to an own property: the value of an existing key is
    replaced where it stands, a new key is added last. *)
Fixpoint assign (k : string) (v : V) (o : t) : t :=
  match o with
  | [] => [(k, v)]
  | (k', v') :: o' =>
      if decide (k' = k) then (k, v) :: o' else (k', v') :: assign k v o'
  end.

(** [o[k] = v].  On an object created by [{}] the key '__proto__' is the
    accessor inherited from [Object.prototype]: assigning to it creates no
    own property. *)
Definition set (k : string) (v : V) (o : t) : t :=
  if decide (k = "__proto__") then o else assign k v o.

Definition digit (a : ascii) : option N :=
  let n := N_of_ascii a in
  if ((48 <=? n) && (n <=? 57))%N then Some (n - 48)%N else None.

Fixpoint parse_digits (s : string) (acc : N) : option N :=
  match s with
  | EmptyString => Some acc
  | String a s' => d ← digit a; parse_digits s' (10 * acc + d)%N
  end.

(** An array index is the canonical decimal form of an integer in
    [0, 2^32 - 2]. *)
Definition arrayIndex (k : string) : option N :=
  match k with
  | EmptyString => None
  | String "0"%char EmptyString => Some 0%N
  | String "0"%char _ => None
  | _ => n ← parse_digits k 0; if (n <? 2 ^ 32 - 1)%N then Some n else None
  end.

Definition indexed (o : t) : list (N * V) :=
  omap (fun kv => i ← arrayIndex kv.1; Some (i, kv.2)) o.

Definition named (o : t) : list (string * V) :=
  List.filter (fun kv => bool_decide (arrayIndex kv.1 = None)) o.

Definition index_le (a b : N * V) : Prop := (a.1 <= b.1)%N.

#[global] Instance index_le_dec a b : Decision (index_le a b) :=
  decide (a.1 <= b.1)%N.

(** [Object.values(o)] *)
Definition values (o : t) : list V :=
  (snd <$> merge_sort index_le (indexed o)) ++ (snd <$> named o).

End WithValue.
Arguments t : clear implicits.
End JsObject.

(** ** core/models/SearchResponse.ts *)

Record SearchResponse := {
  sr_name : string;
  sr_url : string;
  sr_apiName : string
}.

(** ** The world outside the process *)

(** What a provider's [search] / [quickSearch] does when called. *)
Inductive SearchOutcome :=
| NoSearchFn                                     (* the method is missing *)
| Rejects                                        (* throws, or the promise rejects *)
| Resolves (results : option (list SearchResponse)).
                                                 (* [None]: a value that is not an array *)

(** What [downloadPlugin(url)] of repositoryService.ts resolves to. *)
Inductive Download :=
| DlNull                                         (* fetch failed or not ok *)
| DlText (text : jsstring)                       (* [response.text()] *)
| DlBinary (bytes : list Byte.byte).             (* [response.arrayBuffer()] *)

(** The object a plugin script leaves in [module.exports.default ||
    module.exports]. *)
Inductive Exported :=
| ExNotObject                                    (* falsy, or [typeof] is not 'object' *)
| ExObject (hasSearch hasLoad : bool) (nm url : string).

Inductive ExecOutcome :=
| ExecThrows
| ExecReturns (e : Exported).

(** What [fetch('http://127.0.0.1:8765/plugin/load', ...)] does. *)
Inductive RpcLoadOutcome :=
| RpcAborted                                     (* rejects with an 'AbortError' *)
| RpcFailed                                      (* rejects otherwise, or [!response.ok] *)
| RpcReplied (success : bool).

Record World := {
  (* repositoryService.downloadPlugin *)
  fetchPlugin : string -> Download;
  (* new Function('module', 'exports', 'require', code)(...) *)
  evalPlugin : jsstring -> ExecOutcome;
  (* window.electronAPI is present *)
  electronAPI : bool;
  ipcGetPluginPath : string -> string -> option string;
  ipcPluginFileExists : string -> string -> bool;
  (* electronAPI.savePluginFile: [Some path] on success *)
  ipcSavePluginFile : string -> string -> option string;
  rpcLoad : string -> string -> string -> RpcLoadOutcome;
  (* provider.search (false) / provider.quickSearch (true) *)
  searchOf : MainAPI -> bool -> jsstring -> SearchOutcome;
  (* stremioService.search: [None] when it throws *)
  stremioSearch : jsstring -> option (list SearchResponse);
  (* the order in which the pending provider searches settle *)
  settleOrder : list MainAPI -> list MainAPI;
  (* the number of arguments a call accepts: spreading more into a call
     throws a RangeError (it depends on the engine and its stack) *)
  argumentLimit : N
}.

(** Calls that leave the process, in the order they are issued. *)
Inductive Event :=
| EvDownload (url : string)                      (* GET of a plugin package *)
| EvExecute (code : jsstring)                    (* evaluation of plugin code *)
| EvHealth                                       (* GET /health *)
| EvIpcSave (pluginId repositoryUrl : string)
| EvRpcLoad (path pluginId repositoryUrl : string)   (* POST /plugin/load *)
| EvRpcUnload (pluginId : string)                (* DELETE /plugin/{pluginId} *)
| EvProviderSearch (provider : string) (quick : bool) (query : jsstring)
| EvStremioSearch (query : jsstring).

(** ** core/services/searchService.ts *)

Module SearchService.

Inductive Status := idle | loading | success | error.

Record SearchResultState := {
  status : Status;
  query : jsstring;
  mergedResults : list SearchResponse;
  perProviderResults : JsObject.t (list SearchResponse);
  error_message : option string         (* the optional field [error] *)
}.

(** Both fields are optional; a missing field takes its default. *)
Record SearchOptions := {
  activeProviders : option (list string);
  quick : option bool
}.

Definition noOptions : SearchOptions :=
  {| activeProviders := None; quick := None |}.

(** White space and line terminators removed by [String.prototype.trim]. *)
Definition isWhiteSpace (c : N) : bool :=
  bool_decide (c ∈ [9; 10; 11; 12; 13; 32; 160; 5760; 8232; 8233; 8239; 8287;
                    12288; 65279]%N)
  || ((8192 <=? c) && (c <=? 8202))%N.

Fixpoint dropWhile (f : N -> bool) (s : jsstring) : jsstring :=
  match s with
  | [] => []
  | c :: s' => if f c then dropWhile f s' else s
  end.

Definition trim (s : jsstring) : jsstring :=
  reverse (dropWhile isWhiteSpace (reverse (dropWhile isWhiteSpace s))).

Section Merge.
Context {A : Type}.

(** The body of [for (const list of allLists)] at [index], acting on
    the pair ([mergedResults], [added]). *)
Definition visit (index : nat) (acc : list A * nat) (lst : list A)
  : list A * nat :=
  let '(merged, added) := acc in
  if bool_decide (index < length lst) then      (* list.length > index *)
    match lst !! index with
    | Some x => (merged ++ [x], S added)
    | None => (merged, added)
    end
  else (merged, added).

(** One full pass of the [for] loop, starting with [added = 0]. *)
Definition pass (index : nat) (allLists : list (list A)) (merged : list A)
  : list A * nat :=
  fold_left (visit index) allLists (merged, 0).

Definition maxLength (allLists : list (list A)) : nat :=
  max_list_with length allLists.

Lemma visit_all_added index allLists acc :
  (fold_left (visit index) allLists acc).2 ≠ acc.2 ->
  index < maxLength allLists.
Proof.
  revert acc. induction allLists as [|l ls IH]; intros [merged added]; simpl.
  - done.
  - case_bool_decide as Hlen; [lia|].
    intros H. apply IH in H. lia.
Qed.

(** The [while (true)] loop: it is left when a pass adds nothing, and
    each pass that adds something is at an index below the longest
    list, so the loop is entered at most [maxLength allLists + 1]
    times. *)
Equations? mergeLoop (allLists : list (list A)) (index : nat)
    (merged : list A) : list A
    by wf (maxLength allLists - index) lt :=
  mergeLoop allLists index merged with Logic.inspect (pass index allLists merged) := {
    | exist _ (merged', 0) _ => merged'
    | exist _ (merged', S _) Hpass => mergeLoop allLists (S index) merged'
  }.
Proof.
  assert (index < maxLength allLists); [|lia].
  apply (visit_all_added index allLists (merged, 0)).
  unfold pass in Hpass. rewrite Hpass. done.
Qed.

(** Lines 76-90: the merge of [runSearch]. *)
Definition mergeRoundRobin (allLists : list (list A)) : list A :=
  mergeLoop allLists 0 [].

End Merge.

(** The filter of line 40: an empty [activeProviders] selects everything. *)
Definition selected (activeProviders : list string) (p : MainAPI) : bool :=
  if bool_decide (length activeProviders = 0) then true
  else bool_decide (name p ∈ activeProviders).

(** The synchronous part of the [async] callback of line 49: the search
    method is called unless it is missing. *)
Definition searchCall (w : World) (quick : bool) (trimmed : jsstring)
    (provider : MainAPI) : option Event :=
  match searchOf w provider quick trimmed with
  | NoSearchFn => None
  | _ => Some (EvProviderSearch (name provider) quick trimmed)
  end.

(** The rest of the callback, run when the provider's promise settles. *)
Definition settle (w : World) (quick : bool) (trimmed : jsstring)
    (perProviderResults : JsObject.t (list SearchResponse)) (provider : MainAPI)
  : JsObject.t (list SearchResponse) :=
  match searchOf w provider quick trimmed with
  | NoSearchFn => perProviderResults                (* if (!searchFn) return *)
  | Resolves (Some results) =>
      JsObject.set (name provider) results perProviderResults
  | Resolves None => perProviderResults             (* not an array *)
  | Rejects => perProviderResults                   (* catch: log and go on *)
  end.

(** Lines 65-74: the Stremio add-ons, searched after all providers settled. *)
Definition addStremio (w : World) (trimmed : jsstring)
    (perProviderResults : JsObject.t (list SearchResponse))
  : JsObject.t (list SearchResponse) :=
  match stremioSearch w trimmed with
  | Some stremioResults =>
      if bool_decide (0 < length stremioResults)
      then JsObject.set "stremio" stremioResults perProviderResults
      else perProviderResults
  | None => perProviderResults                      (* catch: log and go on *)
  end.

(** [runSearch(query, options)]: the resolved value of the promise and
    the calls that were made. *)
Definition runSearch (w : World) (apis : ApiHolder.t) (query : jsstring)
    (options : SearchOptions) : SearchResultState * list Event :=
  let trimmed := trim query in
  if bool_decide (length trimmed <= 1) then
    ({| status := idle; query := trimmed; mergedResults := [];
        perProviderResults := JsObject.empty; error_message := None |}, [])
  else
    let activeProviders := default [] (activeProviders options) in
    let quick := default false (quick options) in
    let providers :=
      List.filter (selected activeProviders) (ApiHolder.getAllApis apis) in
    let perProviderResults :=
      fold_left (settle w quick trimmed) (settleOrder w providers)
        JsObject.empty in
    let perProviderResults := addStremio w trimmed perProviderResults in
    let allLists := JsObject.values perProviderResults in
    let mergedResults := mergeRoundRobin allLists in
    ({| status := success; query := trimmed; mergedResults := mergedResults;
        perProviderResults := perProviderResults; error_message := None |},
     omap (searchCall w quick trimmed) providers ++ [EvStremioSearch trimmed]).

End SearchService.

(** ** core/models/Repository.ts and the stored plugin metadata *)

Record SitePlugin := {
  sp_url : string;
  sp_version : Z;
  sp_name : string;
  sp_internalName : string
}.

Record PluginMetadata := {
  internalName : string;
  url : string;
  version : Z;
  repositoryUrl : string;
  enabled : bool
}.

(** ** The state of the renderer process

    [storedPlugins] is the item 'cloudstream_plugins' of [localStorage]
    as [JSON.parse] reads it ([None]: absent or unreadable); [items] are
    the other items of [localStorage], which is taken to have room for
    what is stored. *)

Record State := {
  apis : ApiHolder.t;
  storedPlugins : option (list PluginMetadata);
  items : gmap string jsstring;
  isInitialized : bool;               (* JVMBridgeService.isInitialized *)
  pluginInstances : gset string;      (* keys of JVMBridgeService.pluginInstances *)
  nextRef : nat;                      (* identity of the next object created *)
  trace : list Event
}.

Definition initial : State :=
  {| apis := ApiHolder.empty; storedPlugins := None; items := ∅;
     isInitialized := false; pluginInstances := ∅; nextRef := 0; trace := [] |}.

Definition set_apis (f : ApiHolder.t -> ApiHolder.t) (s : State) : State :=
  {| apis := f (apis s); storedPlugins := storedPlugins s; items := items s;
     isInitialized := isInitialized s; pluginInstances := pluginInstances s;
     nextRef := nextRef s; trace := trace s |}.

Definition set_storedPlugins (v : option (list PluginMetadata)) (s : State) : State :=
  {| apis := apis s; storedPlugins := v; items := items s;
     isInitialized := isInitialized s; pluginInstances := pluginInstances s;
     nextRef := nextRef s; trace := trace s |}.

Definition set_items (f : gmap string jsstring -> gmap string jsstring) (s : State) : State :=
  {| apis := apis s; storedPlugins := storedPlugins s; items := f (items s);
     isInitialized := isInitialized s; pluginInstances := pluginInstances s;
     nextRef := nextRef s; trace := trace s |}.

Definition set_isInitialized (b : bool) (s : State) : State :=
  {| apis := apis s; storedPlugins := storedPlugins s; items := items s;
     isInitialized := b; pluginInstances := pluginInstances s;
     nextRef := nextRef s; trace := trace s |}.

Definition set_pluginInstances (f : gset string -> gset string) (s : State) : State :=
  {| apis := apis s; storedPlugins := storedPlugins s; items := items s;
     isInitialized := isInitialized s; pluginInstances := f (pluginInstances s);
     nextRef := nextRef s; trace := trace s |}.

Definition emit (e : Event) (s : State) : State :=
  {| apis := apis s; storedPlugins := storedPlugins s; items := items s;
     isInitialized := isInitialized s; pluginInstances := pluginInstances s;
     nextRef := nextRef s; trace := trace s ++ [e] |}.

(** A new object: its identity is fresh. *)
Definition newObject (nm murl : string) (s : State) : MainAPI * State :=
  ({| ref := nextRef s; name := nm; mainUrl := murl |},
   {| apis := apis s; storedPlugins := storedPlugins s; items := items s;
      isInitialized := isInitialized s; pluginInstances := pluginInstances s;
      nextRef := S (nextRef s); trace := trace s |}).

(** The string [String.fromCharCode] returns for the code units [bytes]. *)
Definition fromCharCode (bytes : list Byte.byte) : jsstring :=
  (fun b => Byte.to_N b) <$> bytes.

(** [String.fromCharCode(...bytes)]: the spread makes every byte an argument
    of the call, and a call with more arguments than the engine accepts
    throws a RangeError ([None]). *)
Definition fromCharCodeSpread (w : World) (bytes : list Byte.byte)
  : option jsstring :=
  if (N.of_nat (length bytes) <=? argumentLimit w)%N
  then Some (fromCharCode bytes) else None.

(** [btoa] on a string of code units below 256 *)
Definition b64char (n : N) : N :=
  (if n <? 26 then 65 + n
   else if n <? 52 then 97 + (n - 26)
   else if n <? 62 then 48 + (n - 52)
   else if n =? 62 then 43 else 47)%N.

Fixpoint btoa (binary : jsstring) : jsstring :=
  match binary with
  | [] => []
  | [a] => [b64char (a / 4); b64char ((a mod 4) * 16); 61; 61]%N
  | [a; b] =>
      [b64char (a / 4); b64char ((a mod 4) * 16 + b / 16);
       b64char ((b mod 16) * 4); 61]%N
  | a :: b :: c :: rest =>
      [b64char (a / 4); b64char ((a mod 4) * 16 + b / 16);
       b64char ((b mod 16) * 4 + c / 64); b64char (c mod 64)]%N
      ++ btoa rest
  end.

(** ** core/services/jvmBridge.ts *)

Module JVMBridge.

(** What an [async] method of the bridge does: it resolves or rejects. *)
Inductive Settled (A : Type) :=
| Resolved (a : A)
| Rejected.
Arguments Resolved {A} a.
Arguments Rejected {A}.

(** [getPluginKey], also the key of the [localStorage] fallback *)
Definition getPluginKey (plugin : SitePlugin) (repositoryUrl : string) : string :=
  "plugin_" +:+ sp_internalName plugin +:+ "_" +:+ repositoryUrl.

Definition getPluginPath (w : World) (plugin : SitePlugin)
    (repositoryUrl : string) : option string :=
  if electronAPI w then ipcGetPluginPath w (sp_internalName plugin) repositoryUrl
  else None.

Definition pluginFileExists (w : World) (pluginId repositoryUrl : string) : bool :=
  if electronAPI w then ipcPluginFileExists w pluginId repositoryUrl else false.

(** A string used as a condition: [null] and the empty string are falsy. *)
Definition truthy (path : option string) : bool :=
  match path with
  | Some p => negb (bool_decide (p = ""))
  | None => false
  end.

(** [downloadPlugin(plugin, repositoryUrl)]: the path of the stored file. *)
Definition downloadPlugin (w : World) (plugin : SitePlugin)
    (repositoryUrl : string) (s : State) : Settled string * State :=
  let pluginPath := getPluginPath w plugin repositoryUrl in
  if truthy pluginPath
     && pluginFileExists w (sp_internalName plugin) repositoryUrl
  then (Resolved (default "" pluginPath), s)
  else
    let s := emit (EvDownload (sp_url plugin)) s in
    let pluginData := fetchPlugin w (sp_url plugin) in
    match pluginData with
    | DlNull | DlText [] => (Rejected, s)       (* if (!pluginData) throw *)
    | _ =>
        if electronAPI w then
          let s := emit (EvIpcSave (sp_internalName plugin) repositoryUrl) s in
          match ipcSavePluginFile w (sp_internalName plugin) repositoryUrl with
          | Some path => (Resolved path, s)
          | None => (Rejected, s)
          end
        else
          let pluginKey := getPluginKey plugin repositoryUrl in
          match pluginData with
          | DlBinary bytes =>
              match fromCharCodeSpread w bytes with
              | Some binary =>
                  let base64 := btoa binary in
                  let s := set_items <[pluginKey := base64]> s in
                  let s := set_items <[pluginKey +:+ "_type" := js "binary"]> s in
                  (Resolved pluginKey, s)
              | None => (Rejected, s)           (* the RangeError rejects *)
              end
          | DlText text =>
              let s := set_items <[pluginKey := text]> s in
              let s := set_items <[pluginKey +:+ "_type" := js "text"]> s in
              (Resolved pluginKey, s)
          | DlNull => (Rejected, s)
          end
    end.

Definition initializeBridge (s : State) : State :=
  if isInitialized s then s
  else set_isInitialized true (emit EvHealth s).

(** [loadPlugin(plugin, repositoryUrl)] *)
Definition loadPlugin (w : World) (plugin : SitePlugin) (repositoryUrl : string)
    (s : State) : Settled bool * State :=
  let s := initializeBridge s in
  if negb (isInitialized s) then (Resolved false, s)
  else
    match downloadPlugin w plugin repositoryUrl s with
    | (Rejected, s) => (Resolved false, s)          (* catch: return false *)
    | (Resolved filePath, s) =>
        let s := emit (EvRpcLoad filePath (sp_internalName plugin) repositoryUrl) s in
        match rpcLoad w filePath (sp_internalName plugin) repositoryUrl with
        | RpcAborted => (Rejected, s)           (* rethrown as a time-out *)
        | RpcFailed => (Resolved false, s)
        | RpcReplied success => (Resolved success, s)
        end
    end.

(** [unloadPlugin(pluginId)]: the body is
    [this.pluginInstances.delete(pluginId)] under a TODO; no request is
    sent to the sidecar. *)
Definition unloadPlugin (pluginId : string) (s : State) : State :=
  set_pluginInstances (fun m => m ∖ {[pluginId]}) s.

End JVMBridge.

(** ** core/services/pluginLoader.ts *)

Module PluginLoader.

Definition PLUGIN_CODE_STORAGE_PREFIX : string := "plugin_code_".

Definition codeKey (internalName repositoryUrl : string) : string :=
  PLUGIN_CODE_STORAGE_PREFIX +:+ internalName +:+ "_" +:+ repositoryUrl.

(** [JSON.parse] of the stored item, [[]] when it is absent or unreadable *)
Definition getStoredPlugins (s : State) : list PluginMetadata :=
  default [] (storedPlugins s).

Definition savePluginMetadata (plugin : PluginMetadata) (s : State) : State :=
  let plugins := getStoredPlugins s in
  let index :=
    list_find (fun p => internalName p = internalName plugin
                        /\ repositoryUrl p = repositoryUrl plugin) plugins in
  let plugins :=
    match index with
    | Some (index, _) => <[index := plugin]> plugins    (* index >= 0 *)
    | None => plugins ++ [plugin]
    end in
  set_storedPlugins (Some plugins) s.

Definition removePluginMetadata (internalName' repositoryUrl' : string)
    (s : State) : State :=
  let plugins := getStoredPlugins s in
  let filtered :=
    List.filter (fun p => negb (bool_decide (internalName p = internalName'
                                             /\ repositoryUrl p = repositoryUrl')))
      plugins in
  let s := set_storedPlugins (Some filtered) s in
  set_items (delete (codeKey internalName' repositoryUrl')) s.

Definition storePluginCode (internalName repositoryUrl : string)
    (code : jsstring) (s : State) : State :=
  set_items <[codeKey internalName repositoryUrl := code]> s.

Definition getStoredPluginCode (internalName repositoryUrl : string)
    (s : State) : option jsstring :=
  items s !! codeKey internalName repositoryUrl.

Inductive Stage := download | parse | execute | validate | register.

(** The [message] and [details] of an error are diagnostic text built
    from the inputs; the embedding keeps the [stage]. *)
Record PluginLoadError := { stage : Stage }.

Record LoadResult := {
  success : bool;
  error : option PluginLoadError
}.

Definition succeeded : LoadResult := {| success := true; error := None |}.

Definition failed (st : Stage) : LoadResult :=
  {| success := false; error := Some {| stage := st |} |}.

(** The character class of line 137:
    [[\x00-\x08\x0B-\x0C\x0E-\x1F\x7F-\x9F]] *)
Definition binaryChar (c : N) : bool :=
  ((c <=? 8) || ((11 <=? c) && (c <=? 12)) || ((14 <=? c) && (c <=? 31))
   || ((127 <=? c) && (c <=? 159)))%N.

(** The number that a length is. *)
Definition lengthNumber {X : Type} (l : list X) : float :=
  PrimFloat.of_uint63 (Uint63Axioms.of_Z (Z.of_nat (length l))).

(** The closure [isBinary] of lines 129-140; [isBinaryFile] is the
    variable it captures.  [match] yields [null] when nothing matches. *)
Definition isBinary (isBinaryFile : bool) (text : jsstring) : bool :=
  if isBinaryFile then true
  else if startsWith text (js "PK") then true
  else if startsWith text [100; 101; 120; 10]%N then true      (* 'dex\n' *)
  else
    let first100 := substring0 (Nat.min 100 (length text)) text in
    let binaryChars := List.filter binaryChar first100 in
    match binaryChars with
    | [] => false
    | _ :: _ =>
        if (lengthNumber first100 * 0.1 <? lengthNumber binaryChars)%float
        then true else false
    end.

(** How lines 93-125 end: the install is over with an error of the given
    stage, or it goes on with the code and the flag [isBinaryFile]. *)
Inductive Resolution :=
| Fails (st : Stage)
| Proceeds (code : jsstring) (isBinaryFile : bool).

(** Lines 93-125.  A failed download returns the error of stage
    'download'; the RangeError of line 114 is caught at line 292 and
    reported at stage 'parse', and nothing has been stored by then. *)
Definition resolveCode (w : World) (plugin : SitePlugin) (repositoryUrl : string)
    (s : State) : Resolution * State :=
  let code := getStoredPluginCode (sp_internalName plugin) repositoryUrl s in
  match code with
  | Some (c :: code') =>                                  (* a non-empty string *)
      let code := c :: code' in
      (Proceeds code (startsWith code (js "PK")
                      || startsWith code [100; 101; 120; 10]%N), s)
  | _ =>                                                  (* if (!code) *)
      let s := emit (EvDownload (sp_url plugin)) s in
      match fetchPlugin w (sp_url plugin) with
      | DlNull | DlText [] => (Fails download, s)         (* if (!downloaded) *)
      | DlBinary bytes =>
          match fromCharCodeSpread w bytes with
          | Some code =>
              (Proceeds code true,
               storePluginCode (sp_internalName plugin) repositoryUrl code s)
          | None => (Fails parse, s)
          end
      | DlText code =>
          (Proceeds code false,
           storePluginCode (sp_internalName plugin) repositoryUrl code s)
      end
  end.

Definition installedRecord (plugin : SitePlugin) (repositoryUrl : string)
  : PluginMetadata :=
  {| internalName := sp_internalName plugin; url := sp_url plugin;
     version := sp_version plugin; repositoryUrl := repositoryUrl;
     enabled := true |}.

(** Lines 142-201: a binary package is handed to the JVM bridge. *)
Definition loadBinary (w : World) (plugin : SitePlugin) (repositoryUrl : string)
    (s : State) : LoadResult * State :=
  match JVMBridge.loadPlugin w plugin repositoryUrl s with
  | (JVMBridge.Resolved true, s) =>
      let '(proxyApi, s) := newObject (sp_internalName plugin) (sp_url plugin) s in
      let s := set_apis (ApiHolder.addPlugin proxyApi) s in
      let s := savePluginMetadata (installedRecord plugin repositoryUrl) s in
      (succeeded, s)
  | (JVMBridge.Resolved false, s) => (failed parse, s)
  | (JVMBridge.Rejected, s) => (failed parse, s)
  end.

(** Lines 203-291: a script is evaluated in the process. *)
Definition loadScript (w : World) (plugin : SitePlugin) (repositoryUrl : string)
    (code : jsstring) (s : State) : LoadResult * State :=
  let s := emit (EvExecute code) s in
  match evalPlugin w code with
  | ExecThrows => (failed execute, s)
  | ExecReturns ExNotObject => (failed validate, s)
  | ExecReturns (ExObject hasSearch hasLoad nm murl) =>
      if negb hasSearch || negb hasLoad then (failed validate, s)
      else
        let '(pluginInstance, s) := newObject nm murl s in
        let s := set_apis (ApiHolder.addPlugin pluginInstance) s in
        let s := savePluginMetadata (installedRecord plugin repositoryUrl) s in
        (succeeded, s)
  end.

(** [loadPlugin(plugin, repositoryUrl)] *)
Definition loadPlugin (w : World) (plugin : SitePlugin) (repositoryUrl : string)
    (s : State) : LoadResult * State :=
  let existing := ApiHolder.getApi (sp_internalName plugin) (apis s) in
  match existing with
  | Some _ => (succeeded, s)                   (* already loaded *)
  | None =>
      match resolveCode w plugin repositoryUrl s with
      | (Fails st, s) => (failed st, s)
      | (Proceeds code isBinaryFile, s) =>
          if isBinary isBinaryFile code
          then loadBinary w plugin repositoryUrl s
          else loadScript w plugin repositoryUrl code s
      end
  end.

(** [unloadPlugin(internalName)] *)
Definition unloadPlugin (internalName' : string) (s : State) : State :=
  let plugins := getStoredPlugins s in
  let plugin :=
    List.find (fun p => bool_decide (internalName p = internalName')) plugins in
  match plugin with
  | Some plugin =>
      let api := ApiHolder.getApi internalName' (apis s) in
      let s :=
        match api with
        | Some api => set_apis (ApiHolder.removePlugin api) s
        | None => s
        end in
      let plugin :=                              (* plugin.enabled = false *)
        {| internalName := internalName plugin; url := url plugin;
           version := version plugin; repositoryUrl := repositoryUrl plugin;
           enabled := false |} in
      savePluginMetadata plugin s
  | None => s
  end.

(** [reloadPlugin(plugin, repositoryUrl)] *)
Definition reloadPlugin (w : World) (plugin : SitePlugin) (repositoryUrl : string)
    (s : State) : LoadResult * State :=
  let s := unloadPlugin (sp_internalName plugin) s in
  let s := set_items (delete (codeKey (sp_internalName plugin) repositoryUrl)) s in
  loadPlugin w plugin repositoryUrl s.

End PluginLoader.

(** ** core/services/resumeService.ts *)

Module ResumeService.

Record ResumeData := {
  position : float;                   (* seconds *)
  duration : float;                   (* seconds *)
  lastUpdated : float;
  episodeUrl : string;
  episodeName : option string
}.

(** [shouldResume(resumeData)]; [None] is [null]. *)
Definition shouldResume (resumeData : option ResumeData) : bool :=
  match resumeData with
  | None => false
  | Some resumeData =>
      if (position resumeData <? 10)%float then false
      else if (0 <? duration resumeData)%float
              && (0.9 <? position resumeData / duration resumeData)%float
      then false
      else true
  end.

End ResumeService.

(** ** Vocabulary of the properties *)

Definition names (apis : list MainAPI) : list string := name <$> apis.

(** The handles that answer to [nm]. *)
Definition handles_named (nm : string) (apis : list MainAPI) : list MainAPI :=
  List.filter (fun api => bool_decide (name api = nm)) apis.

(** The round-robin interleave in the words of the design: the elements at
    index 0 of every list that still has one, then those at index 1, and
    so on until every list is exhausted. *)
Definition column {A : Type} (index : nat) (allLists : list (list A)) : list A :=
  omap (fun l => l !! index) allLists.

Definition roundRobin {A : Type} (allLists : list (list A)) : list A :=
  mjoin ((fun index => column index allLists)
           <$> seq 0 (SearchService.maxLength allLists)).

(** What the search fan-out records, in the words of the design. *)


(** The result list a provider contributes, under its name. *)
Definition resolvedList (w : World) (quick : bool) (trimmed : jsstring)
    (p : MainAPI) : option (string * list SearchResponse) :=
  match searchOf w p quick trimmed with
  | Resolves (Some results) => Some (name p, results)
  | _ => None
  end.

Definition recordAll (entries : list (string * list SearchResponse))
  : JsObject.t (list SearchResponse) :=
  fold_left (fun o kv => JsObject.set kv.1 kv.2 o) entries JsObject.empty.


(** The two package kinds of the design; a package is a
    ForeignBytecodeArchive when the loader hands it to the JVM bridge and
    a ScriptedSource when the loader evaluates it. *)
Inductive PackageKind := ScriptedSource | ForeignBytecodeArchive.

Definition classify (isBinaryFile : bool) (code : jsstring) : PackageKind :=
  if PluginLoader.isBinary isBinaryFile code
  then ForeignBytecodeArchive else ScriptedSource.

(** The test of line 138 on integers: more than a tenth. *)
Definition tenthExceeded (count len : nat) : bool :=
  bool_decide (len < 10 * count).

(** Control characters (Unicode category Cc): U+0000-U+001F and
    U+007F-U+009F. *)
Definition isControl (c : N) : bool :=
  ((c <=? 31) || ((127 <=? c) && (c <=? 159)))%N.

(** The flag the loader computes for code found in the cache. *)
Definition cachedFlag (code : jsstring) : bool :=
  startsWith code (js "PK") || startsWith code [100; 101; 120; 10]%N.

Definition withVersion (v : Z) (plugin : SitePlugin) : SitePlugin :=
  {| sp_url := sp_url plugin; sp_version := v; sp_name := sp_name plugin;
     sp_internalName := sp_internalName plugin |}.

(** The stored record that [unloadPlugin] looks up for a name. *)
Definition storedRecord (nm : string) (s : State) : option PluginMetadata :=
  List.find (fun p => bool_decide (internalName p = nm))
    (PluginLoader.getStoredPlugins s).

(** All the stored records of a name (one per repository). *)
Definition recordsNamed (nm : string) (s : State) : list PluginMetadata :=
  List.filter (fun p => bool_decide (internalName p = nm))
    (PluginLoader.getStoredPlugins s).

Definition disabled (r : PluginMetadata) : PluginMetadata :=
  {| internalName := internalName r; url := url r; version := version r;
     repositoryUrl := repositoryUrl r; enabled := false |}.

(** The stored list after disabling the first record of a name. *)
Fixpoint disableFirst (nm : string) (plugins : list PluginMetadata)
  : list PluginMetadata :=
  match plugins with
  | [] => []
  | p :: ps =>
      if bool_decide (internalName p = nm) then disabled p :: ps
      else p :: disableFirst nm ps
  end.

Definition byName (nm : string) (plugins : list PluginMetadata)
  : option PluginMetadata :=
  List.find (fun p => bool_decide (internalName p = nm)) plugins.

(** ** Sample data *)

Definition result (nm : string) : SearchResponse :=
  {| sr_name := nm; sr_url := "https://example.org/" +:+ nm; sr_apiName := "sample" |}.

Definition providerA : MainAPI := {| ref := 1; name := "A"; mainUrl := "https://a.example" |}.
Definition providerB : MainAPI := {| ref := 2; name := "B"; mainUrl := "https://b.example" |}.
Definition providerC : MainAPI := {| ref := 3; name := "C"; mainUrl := "https://c.example" |}.

(** A world in which A and C answer, B throws, nothing can be downloaded
    and no Stremio add-on is installed. *)
Definition sampleWorld : World :=
  {| fetchPlugin := fun _ => DlNull;
     evalPlugin := fun _ => ExecThrows;
     electronAPI := false;
     ipcGetPluginPath := fun _ _ => None;
     ipcPluginFileExists := fun _ _ => false;
     ipcSavePluginFile := fun _ _ => None;
     rpcLoad := fun _ _ _ => RpcFailed;
     searchOf := fun p _ _ =>
       if bool_decide (name p = "A") then Resolves (Some [result "a1"; result "a2"])
       else if bool_decide (name p = "C")
            then Resolves (Some [result "c1"; result "c2"; result "c3"])
            else Rejects;
     stremioSearch := fun _ => Some [];
     settleOrder := fun ps => ps;
     argumentLimit := 65536 |}.

(** The same world with a Stremio add-on that finds one item. *)
Definition stremioWorld : World :=
  {| fetchPlugin := fetchPlugin sampleWorld;
     evalPlugin := evalPlugin sampleWorld;
     electronAPI := electronAPI sampleWorld;
     ipcGetPluginPath := ipcGetPluginPath sampleWorld;
     ipcPluginFileExists := ipcPluginFileExists sampleWorld;
     ipcSavePluginFile := ipcSavePluginFile sampleWorld;
     rpcLoad := rpcLoad sampleWorld;
     searchOf := searchOf sampleWorld;
     stremioSearch := fun _ => Some [result "s1"];
     settleOrder := settleOrder sampleWorld;
     argumentLimit := argumentLimit sampleWorld |}.

Definition sampleRepo : string := "https://repo.example/repo.json".

(** A second repository that lists a plugin of the same internal name. *)
Definition otherRepo : string := "https://other.example/repo.json".

(** A script plugin, version 2 in the catalogue. *)
Definition scriptPlugin : SitePlugin :=
  {| sp_url := "https://repo.example/p.js"; sp_version := 2;
     sp_name := "Sample"; sp_internalName := "P" |}.

(** A script that exports an object without methods. *)
Definition scriptCode : jsstring := js "module.exports = {}".

(** A script that exports a provider named P, and the script of its next
    version. *)
Definition providerCode : jsstring :=
  js "module.exports = { name: 'P', mainUrl: 'https://p.example', search: async () => [], load: async () => null };".

Definition providerCode2 : jsstring :=
  js "module.exports = { name: 'P', mainUrl: 'https://p.example', search: async (q) => [{ name: q }], load: async () => null };".

(** What evaluating the sample scripts leaves in [module.exports]: the
    provider scripts leave a provider named P with both methods,
    [scriptCode] leaves the empty object (its name and main url are never
    read); any other code is taken to throw. *)
Definition evalSample (code : jsstring) : ExecOutcome :=
  if bool_decide (code = providerCode) || bool_decide (code = providerCode2)
  then ExecReturns (ExObject true true "P" "https://p.example")
  else if bool_decide (code = scriptCode)
       then ExecReturns (ExObject false false "" "")
       else ExecThrows.

(** A world that serves [scriptCode] as text. *)
Definition textWorld : World :=
  {| fetchPlugin := fun _ => DlText scriptCode;
     evalPlugin := evalSample;
     electronAPI := false;
     ipcGetPluginPath := fun _ _ => None;
     ipcPluginFileExists := fun _ _ => false;
     ipcSavePluginFile := fun _ _ => None;
     rpcLoad := fun _ _ _ => RpcReplied true;
     searchOf := fun _ _ _ => Resolves (Some []);
     stremioSearch := fun _ => Some [];
     settleOrder := fun ps => ps;
     argumentLimit := 65536 |}.

(** The same world, serving the same bytes as an [ArrayBuffer]. *)
Definition binaryWorld : World :=
  {| fetchPlugin := fun _ => DlBinary (String.list_byte_of_string "module.exports = {}");
     evalPlugin := evalPlugin textWorld;
     electronAPI := electronAPI textWorld;
     ipcGetPluginPath := ipcGetPluginPath textWorld;
     ipcPluginFileExists := ipcPluginFileExists textWorld;
     ipcSavePluginFile := ipcSavePluginFile textWorld;
     rpcLoad := rpcLoad textWorld;
     searchOf := searchOf textWorld;
     stremioSearch := stremioSearch textWorld;
     settleOrder := settleOrder textWorld;
     argumentLimit := argumentLimit textWorld |}.

(** The worlds of a catalogue that serves the provider script, and of the
    same catalogue once it serves the script of the next version. *)
Definition providerWorld : World :=
  {| fetchPlugin := fun _ => DlText providerCode;
     evalPlugin := evalPlugin textWorld;
     electronAPI := electronAPI textWorld;
     ipcGetPluginPath := ipcGetPluginPath textWorld;
     ipcPluginFileExists := ipcPluginFileExists textWorld;
     ipcSavePluginFile := ipcSavePluginFile textWorld;
     rpcLoad := rpcLoad textWorld;
     searchOf := searchOf textWorld;
     stremioSearch := stremioSearch textWorld;
     settleOrder := settleOrder textWorld;
     argumentLimit := argumentLimit textWorld |}.

Definition updatedWorld : World :=
  {| fetchPlugin := fun _ => DlText providerCode2;
     evalPlugin := evalPlugin textWorld;
     electronAPI := electronAPI textWorld;
     ipcGetPluginPath := ipcGetPluginPath textWorld;
     ipcPluginFileExists := ipcPluginFileExists textWorld;
     ipcSavePluginFile := ipcSavePluginFile textWorld;
     rpcLoad := rpcLoad textWorld;
     searchOf := searchOf textWorld;
     stremioSearch := stremioSearch textWorld;
     settleOrder := settleOrder textWorld;
     argumentLimit := argumentLimit textWorld |}.

(** [providerA] is registered; descriptor of a plugin of that name. *)
Definition loadedState : State :=
  {| apis := [providerA]; storedPlugins := None; items := ∅;
     isInitialized := false; pluginInstances := ∅; nextRef := 2; trace := [] |}.

Definition pluginA : SitePlugin :=
  {| sp_url := "https://repo.example/a.js"; sp_version := 1;
     sp_name := "Provider A"; sp_internalName := "A" |}.

(** A compiled plugin: a ZIP archive served as an [ArrayBuffer]. *)
Definition dexPlugin : SitePlugin :=
  {| sp_url := "https://repo.example/dex.cs3"; sp_version := 7;
     sp_name := "Compiled"; sp_internalName := "Dex" |}.

Definition bridgeWorld : World :=
  {| fetchPlugin := fun _ => DlBinary (String.list_byte_of_string "PK-archive");
     evalPlugin := fun _ => ExecThrows;
     electronAPI := true;
     ipcGetPluginPath := fun _ _ => Some "C:/plugins/Dex.cs3";
     ipcPluginFileExists := fun _ _ => false;
     ipcSavePluginFile := fun _ _ => Some "C:/plugins/Dex.cs3";
     rpcLoad := fun _ _ _ => RpcReplied true;
     searchOf := fun _ _ _ => Resolves (Some []);
     stremioSearch := fun _ => Some [];
     settleOrder := fun ps => ps;
     argumentLimit := 65536 |}.

(** The same catalogue serving an archive of 70002 bytes, more than the
    65536 arguments a call accepts there. *)
Definition bigArchive : list Byte.byte :=
  String.list_byte_of_string "PK" ++ N.iter 70000 (cons Byte.x00) [].

Definition bulkWorld : World :=
  {| fetchPlugin := fun _ => DlBinary bigArchive;
     evalPlugin := evalPlugin bridgeWorld;
     electronAPI := electronAPI bridgeWorld;
     ipcGetPluginPath := ipcGetPluginPath bridgeWorld;
     ipcPluginFileExists := ipcPluginFileExists bridgeWorld;
     ipcSavePluginFile := ipcSavePluginFile bridgeWorld;
     rpcLoad := rpcLoad bridgeWorld;
     searchOf := searchOf bridgeWorld;
     stremioSearch := stremioSearch bridgeWorld;
     settleOrder := settleOrder bridgeWorld;
     argumentLimit := argumentLimit bridgeWorld |}.

(** A resume entry with the given position and duration. *)
Definition entry (pos dur : float) : ResumeService.ResumeData :=
  {| ResumeService.position := pos; ResumeService.duration := dur;
     ResumeService.lastUpdated := 0%float;
     ResumeService.episodeUrl := "https://example.org/episode/1";
     ResumeService.episodeName := None |}.

(** Distinct objects have distinct identities. *)
Definition distinctObjects (apis : list MainAPI) : Prop :=
  forall h1 h2, h1 ∈ apis -> h2 ∈ apis -> ref h1 = ref h2 -> h1 = h2.


(** The columns of the indices below [n]. *)
Definition columnsUpTo {A : Type} (n : nat) (allLists : list (list A)) : list A :=
  mjoin ((fun index => column index allLists) <$> seq 0 n).

(** A list without elements has no column. *)
Definition hasElements {A : Type} (l : list A) : bool :=
  match l with
  | [] => false
  | _ :: _ => true
  end.

(** The own keys of an object, in creation order. *)
Definition keys {V : Type} (o : JsObject.t V) : list string := o.*1.

Definition nonBlank (c : N) : bool := negb (SearchService.isWhiteSpace c).

(** The envelopes [runSearch] resolves with. *)
Definition idleResult (trimmed : jsstring) : SearchService.SearchResultState :=
  {| SearchService.status := SearchService.idle;
     SearchService.query := trimmed;
     SearchService.mergedResults := [];
     SearchService.perProviderResults := JsObject.empty;
     SearchService.error_message := None |}.

Definition successResult (trimmed : jsstring)
    (o : JsObject.t (list SearchResponse)) : SearchService.SearchResultState :=
  {| SearchService.status := SearchService.success;
     SearchService.query := trimmed;
     SearchService.mergedResults :=
       SearchService.mergeRoundRobin (JsObject.values o);
     SearchService.perProviderResults := o;
     SearchService.error_message := None |}.

(** The key under which [savePluginMetadata] finds a record. *)
Definition sameKey (plugin p : PluginMetadata) : Prop :=
  internalName p = internalName plugin /\ repositoryUrl p = repositoryUrl plugin.

Definition recordKey (p : PluginMetadata) : string * string :=
  (internalName p, repositoryUrl p).

(** The stored list with [plugin] written over the first record of its
    key, or added at the end. *)
Fixpoint upsert (plugin : PluginMetadata) (plugins : list PluginMetadata)
  : list PluginMetadata :=
  match plugins with
  | [] => [plugin]
  | p :: ps =>
      if bool_decide (recordKey p = recordKey plugin) then plugin :: ps
      else p :: upsert plugin ps
  end.

(** src/pages/PluginsPage.tsx, [isPluginInstalled], on the list that
    [loadInstalledPlugins] reads with [getStoredPlugins]. *)
Definition isPluginInstalled (installedPlugins : list PluginMetadata)
    (internalName' : string) : bool :=
  existsb (fun p => bool_decide (internalName p = internalName') && enabled p)
    installedPlugins.

Definition isHealth (e : Event) : bool :=
  match e with
  | EvHealth => true
  | _ => false
  end.

Definition isDownloadOf (u : string) (e : Event) : bool :=
  match e with
  | EvDownload u' => bool_decide (u' = u)
  | _ => false
  end.

(** The three ways an install can end. *)
Inductive Outcome (plugin : SitePlugin) (repositoryUrl : string) (s : State)
  : PluginLoader.LoadResult -> State -> Prop :=
| AlreadyLoaded existing :
    ApiHolder.getApi (sp_internalName plugin) (apis s) = Some existing ->
    Outcome plugin repositoryUrl s PluginLoader.succeeded s
| Installed handle s' :
    ApiHolder.getApi (sp_internalName plugin) (apis s) = None ->
    ref handle = nextRef s ->
    apis s' = ApiHolder.addPlugin handle (apis s) ->
    PluginLoader.getStoredPlugins s'
      = upsert (PluginLoader.installedRecord plugin repositoryUrl)
          (PluginLoader.getStoredPlugins s) ->
    Outcome plugin repositoryUrl s PluginLoader.succeeded s'
| Failed st s' :
    ApiHolder.getApi (sp_internalName plugin) (apis s) = None ->
    st <> PluginLoader.register ->
    apis s' = apis s ->
    storedPlugins s' = storedPlugins s ->
    Outcome plugin repositoryUrl s (PluginLoader.failed st) s'.


(** ** core/services/repositoryService.ts

    URLs that the service inspects are strings of UTF-16 code units.  What the
    network answers is given by a [Net]; the JSON it returns is taken at the
    types the code casts it to. *)

Module RepositoryService.

(** [[A-Za-z0-9]] *)
Definition alnum (c : N) : bool :=
  ((65 <=? c) && (c <=? 90) || (97 <=? c) && (c <=? 122)
   || (48 <=? c) && (c <=? 57))%N.

(** [[A-Za-z0-9-]] *)
Definition ownerChar (c : N) : bool := alnum c || (c =? 45)%N.

(** [[A-Za-z0-9_.-]] *)
Definition repoChar (c : N) : bool :=
  alnum c || (c =? 95)%N || (c =? 46)%N || (c =? 45)%N.

(** What [.] refuses (the regular expression has no flag). *)
Definition lineTerminator (c : N) : bool :=
  ((c =? 10) || (c =? 13) || (c =? 0x2028) || (c =? 0x2029))%N.

Definition slash : N := 47.

(** The longest prefix of characters of a class, and what follows it. *)
Fixpoint span (class : N -> bool) (s : jsstring) : jsstring * jsstring :=
  match s with
  | c :: s' =>
      if class c then let (run, rest) := span class s' in (c :: run, rest)
      else ([], s)
  | [] => ([], [])
  end.

(** A [/] and what follows it. *)
Definition afterSlash (s : jsstring) : option jsstring :=
  match s with
  | c :: s' => if (c =? slash)%N then Some s' else None
  | [] => None
  end.

Definition nonEmpty (s : jsstring) : bool :=
  match s with [] => false | _ :: _ => true end.

Definition githubHost : jsstring := js "https://github.com/".
Definition rawHost : jsstring := js "https://raw.githubusercontent.com/".

(** [url.match(githubRegex)]: the regular expression is anchored at both
    ends and reads [https://github.com/], a group [[A-Za-z0-9-]+], [/], a
    group [[A-Za-z0-9_.-]+], [/], and a group of any number of [.].  The
    result is the three groups, or [None] for [null].  Neither class contains
    [/], so each [+] can only end where its run of characters ends. *)
Definition githubRegex (url : jsstring)
  : option (jsstring * jsstring * jsstring) :=
  if startsWith url githubHost then
    let (owner, rest) := span ownerChar (drop (length githubHost) url) in
    if nonEmpty owner then
      match afterSlash rest with
      | Some rest =>
          let (repo, rest) := span repoChar rest in
          if nonEmpty repo then
            match afterSlash rest with
            | Some path =>
                if forallb (fun c => negb (lineTerminator c)) path
                then Some (owner, repo, path) else None
            | None => None
            end
          else None
      | None => None
      end
    else None
  else None.

(** [text.includes(p)] *)
Fixpoint includes (text p : jsstring) : bool :=
  startsWith text p
  || match text with
     | [] => false
     | _ :: text' => includes text' p
     end.

Definition convertRawGitUrl (url : jsstring) : jsstring :=
  match githubRegex url with
  | Some (owner, repo, path) =>
      rawHost ++ owner ++ [slash] ++ repo ++ [slash] ++ path
  | None =>
      if includes url (js "raw.githubusercontent.com") then url else url
  end.

Record Repository := {
  repo_name : string;
  manifestVersion : Z;
  pluginLists : list jsstring
}.

(** What [response.json()] of a plugin list is: an array, or one object. *)
Inductive PluginData :=
| Many (plugins : list SitePlugin)
| One (plugin : SitePlugin).

(** [fetch(url)] followed by [response.json()]; [None] when the response is
    not ok or either call throws (for a repository also when the JSON is
    [null]). *)
Record Net := {
  fetchRepository : jsstring -> option Repository;
  fetchPlugins : jsstring -> option PluginData
}.

Definition parseRepository (net : Net) (repositoryUrl : jsstring)
  : option Repository :=
  fetchRepository net (convertRawGitUrl repositoryUrl).

Definition parsePlugins (net : Net) (pluginListUrl : jsstring)
  : list SitePlugin :=
  match fetchPlugins net (convertRawGitUrl pluginListUrl) with
  | Some (Many data) => data
  | Some (One data) => [data]
  | None => []
  end.

(** [{ repositoryUrl, plugin }] *)
Record Item := {
  item_repositoryUrl : jsstring;
  item_plugin : SitePlugin
}.

(** [self.findIndex(p)]; [None] is [-1]. *)
Fixpoint findIndex {A} (p : A -> bool) (self : list A) : option nat :=
  match self with
  | [] => None
  | t :: self' => if p t then Some 0 else S <$> findIndex p self'
  end.

(** [l.filter((item, index) => p(item, index))], for the part of the array
    that starts at [index]. *)
Fixpoint filterFrom {A} (p : A -> nat -> bool) (index : nat) (l : list A)
  : list A :=
  match l with
  | [] => []
  | item :: l' =>
      if p item index then item :: filterFrom p (S index) l'
      else filterFrom p (S index) l'
  end.

Definition sameUrl (item t : Item) : bool :=
  bool_decide (sp_url (item_plugin t) = sp_url (item_plugin item)).

Definition uniquePlugins (allPlugins : list Item) : list Item :=
  filterFrom
    (fun item index =>
       bool_decide (Some index = findIndex (sameUrl item) allPlugins))
    0 allPlugins.

Definition getRepoPlugins (net : Net) (repositoryUrl : jsstring)
  : option (list Item) :=
  match parseRepository net repositoryUrl with
  | None => None
  | Some repo =>
      let results :=
        (fun pluginListUrl =>
           (fun plugin => {| item_repositoryUrl := repositoryUrl;
                             item_plugin := plugin |})
             <$> parsePlugins net pluginListUrl) <$> pluginLists repo in
      let allPlugins := mjoin results in
      Some (uniquePlugins allPlugins)
  end.

End RepositoryService.

(** ** pages/PlayerPage.tsx: when the page saves a position *)

Module PlayerPage.

(** The test before [saveResumePosition] in [handleTimeUpdate] and in the
    five-second timer, for a page that has a [videoUrl] (and, in the timer,
    a video that is not paused). *)
Definition savesPosition (currentTime duration : float) : bool :=
  (0 <? duration)%float
  && ((10 <? currentTime)%float && (currentTime / duration <? 0.9)%float).

End PlayerPage.

(** The URL of an item, and the items of a URL. *)
Definition itemUrl (item : RepositoryService.Item) : string :=
  sp_url (RepositoryService.item_plugin item).

Definition hasUrl (u : string) (item : RepositoryService.Item) : bool :=
  bool_decide (itemUrl item = u).

(** The plugins that the lists of a repository hold, in the order of the
    lists. *)
Definition listedPlugins (net : RepositoryService.Net)
    (repo : RepositoryService.Repository) : list SitePlugin :=
  mjoin (RepositoryService.parsePlugins net
           <$> RepositoryService.pluginLists repo).

(** Keep the first element of every key that is not in [seen]. *)
Fixpoint firstPer {A} (key : A -> string) (seen : list string) (l : list A)
  : list A :=
  match l with
  | [] => []
  | x :: l' =>
      if bool_decide (key x ∈ seen) then firstPer key seen l'
      else x :: firstPer key (key x :: seen) l'
  end.

(** What the regular expression of [convertRawGitUrl] accepts. *)
Definition githubForm (owner repo path : jsstring) : Prop :=
  owner <> [] /\ Forall (fun c => RepositoryService.ownerChar c = true) owner
  /\ repo <> [] /\ Forall (fun c => RepositoryService.repoChar c = true) repo
  /\ Forall (fun c => RepositoryService.lineTerminator c = false) path.

Definition githubUrl (owner repo path : jsstring) : jsstring :=
  RepositoryService.githubHost ++ owner ++ [RepositoryService.slash]
    ++ repo ++ [RepositoryService.slash] ++ path.

Definition rawUrl (owner repo path : jsstring) : jsstring :=
  RepositoryService.rawHost ++ owner ++ [RepositoryService.slash]
    ++ repo ++ [RepositoryService.slash] ++ path.

(** * Properties *)

Section RegistryFacts.
Import ApiHolder.

Lemma names_filter_sub (f : MainAPI -> bool) apis nm :
  nm ∈ names (List.filter f apis) -> nm ∈ names apis.
Proof.
  unfold names. rewrite !list_elem_of_fmap.
  intros (p & -> & Hp). exists p. split; [done|].
  apply list_elem_of_In. apply list_elem_of_In, filter_In in Hp. tauto.
Qed.

Lemma NoDup_names_filter (f : MainAPI -> bool) apis :
  NoDup (names apis) -> NoDup (names (List.filter f apis)).
Proof.
  induction apis as [|p apis IH]; simpl; [done|].
  rewrite NoDup_cons. intros [Hp Hnd].
  destruct (f p); simpl; auto.
  apply NoDup_cons. split; auto.
  intros Hin. apply Hp. eapply names_filter_sub, Hin.
Qed.

Lemma find_name_None nm apis :
  getApi nm apis = None <-> nm ∉ names apis.
Proof.
  unfold getApi, names. induction apis as [|p apis IH]; simpl.
  - split; [intros _; apply not_elem_of_nil | done].
  - rewrite not_elem_of_cons. case_bool_decide as Hn; simpl.
    + split; [done | intros [Hne _]; congruence].
    + rewrite IH. split; [intros ?; split; [congruence | done] | tauto].
Qed.

Lemma find_name_Some nm apis old :
  getApi nm apis = Some old -> name old = nm /\ old ∈ apis.
Proof.
  unfold getApi. intros H. apply find_some in H as [Hin Hb].
  apply bool_decide_eq_true in Hb. split; [done | by apply list_elem_of_In].
Qed.

(** Removing the handle found for a name leaves no handle of that name,
    provided names were unique. *)
Lemma removePlugin_found_gone nm apis old :
  NoDup (names apis) -> getApi nm apis = Some old ->
  nm ∉ names (removePlugin old apis).
Proof.
  unfold getApi, removePlugin, names, same_object.
  induction apis as [|p apis IH]; simpl; [done|].
  rewrite NoDup_cons. intros [Hp Hnd].
  case_bool_decide as Hn; simpl.
  - intros [= <-]. rewrite bool_decide_eq_true_2 by done. simpl.
    subst nm. intros Hin. apply Hp. eapply names_filter_sub, Hin.
  - intros Hf. specialize (IH Hnd Hf).
    destruct (negb _); simpl; [|done].
    rewrite not_elem_of_cons. split; [congruence | done].
Qed.

Lemma addPlugin_NoDup plugin apis :
  NoDup (names apis) -> NoDup (names (addPlugin plugin apis)).
Proof.
  intros Hnd. unfold addPlugin.
  fold (getApi (name plugin) apis).
  destruct (getApi (name plugin) apis) as [old|] eqn:Hf.
  - unfold names. rewrite fmap_app. apply NoDup_app. split_and!.
    + by apply NoDup_names_filter.
    + intros nm Hin [->|[]%elem_of_nil]%elem_of_cons.
      by eapply removePlugin_found_gone.
    + apply NoDup_singleton.
  - unfold names. rewrite fmap_app. apply NoDup_app. split_and!; [done| |apply NoDup_singleton].
    intros nm Hin [->|[]%elem_of_nil]%elem_of_cons.
    by apply find_name_None in Hf.
Qed.

Lemma run_snoc ops op : run (ops ++ [op]) = step (run ops) op.
Proof. unfold run. by rewrite fold_left_app. Qed.

Lemma run_NoDup ops : NoDup (names (run ops)).
Proof.
  induction ops as [|op ops IH] using rev_ind; [apply NoDup_nil_2|].
  rewrite run_snoc. destruct op; simpl.
  - by apply addPlugin_NoDup.
  - by apply NoDup_names_filter.
Qed.

Lemma handles_named_app nm l1 l2 :
  handles_named nm (l1 ++ l2) = handles_named nm l1 ++ handles_named nm l2.
Proof. apply List.filter_app. Qed.

Lemma handles_named_absent nm apis :
  nm ∉ names apis -> handles_named nm apis = [].
Proof.
  unfold handles_named, names. induction apis as [|p apis IH]; simpl; [done|].
  rewrite not_elem_of_cons. intros [Hne Hn].
  rewrite bool_decide_eq_false_2 by congruence. auto.
Qed.

Lemma addPlugin_exactly_one plugin apis :
  NoDup (names apis) ->
  handles_named (name plugin) (addPlugin plugin apis) = [plugin].
Proof.
  intros Hnd. unfold addPlugin. fold (getApi (name plugin) apis).
  rewrite handles_named_app.
  assert (handles_named (name plugin) [plugin] = [plugin]) as ->.
  { simpl. by rewrite bool_decide_eq_true_2. }
  destruct (getApi (name plugin) apis) as [old|] eqn:Hf.
  - rewrite handles_named_absent; [done|]. by eapply removePlugin_found_gone.
  - rewrite handles_named_absent; [done|]. by apply find_name_None.
Qed.

End RegistryFacts.

(** C3: whatever sequence of [addPlugin] / [removePlugin] calls the
    registry has gone through, [getAllApis] lists no name twice; after
    [addPlugin plugin] exactly one handle answers to the name of [plugin],
    namely [plugin], and a handle found under that name beforehand was
    removed before [plugin] was pushed. *)
Theorem registry_one_handle_per_name (ops : list ApiHolder.Op) (plugin : MainAPI) :
  let apis := ApiHolder.run ops in
  NoDup (names (ApiHolder.getAllApis apis))
  /\ NoDup (names (ApiHolder.getAllApis (ApiHolder.addPlugin plugin apis)))
  /\ handles_named (name plugin)
       (ApiHolder.getAllApis (ApiHolder.addPlugin plugin apis)) = [plugin]
  /\ ApiHolder.getApi (name plugin) (ApiHolder.addPlugin plugin apis) = Some plugin
  /\ forall existing,
       ApiHolder.getApi (name plugin) apis = Some existing ->
       ApiHolder.addPlugin plugin apis
         = ApiHolder.removePlugin existing apis ++ [plugin]
       /\ name plugin ∉ names (ApiHolder.removePlugin existing apis).
Proof.
  intros apis. pose proof (run_NoDup ops) as Hnd. fold apis in Hnd.
  split_and!.
  - exact Hnd.
  - by apply addPlugin_NoDup.
  - by apply addPlugin_exactly_one.
  - pose proof (addPlugin_exactly_one plugin apis Hnd) as Hone.
    unfold handles_named, ApiHolder.getAllApis in Hone. unfold ApiHolder.getApi.
    revert Hone. generalize (ApiHolder.addPlugin plugin apis).
    induction t as [|p t IH]; simpl; [done|].
    case_bool_decide; [by intros [= -> _] | done].
  - intros existing Hex. split.
    + unfold ApiHolder.addPlugin. unfold ApiHolder.getApi in Hex. by rewrite Hex.
    + by eapply removePlugin_found_gone.
Qed.

Section MergeFacts.
Context {A : Type}.
Implicit Types (allLists : list (list A)) (merged : list A).
Import SearchService.

(** The loop body, as an equation. *)
Lemma mergeLoop_body allLists index merged :
  mergeLoop allLists index merged =
    match pass index allLists merged with
    | (merged', 0) => merged'
    | (merged', S _) => mergeLoop allLists (S index) merged'
    end.
Proof.
  rewrite mergeLoop_equation_1.
  destruct (Logic.inspect (pass index allLists merged)) as [[merged' [|k]] H];
    simpl; by rewrite H.
Qed.

Lemma column_cons index (l : list A) allLists :
  column index (l :: allLists) =
    match l !! index with
    | Some x => x :: column index allLists
    | None => column index allLists
    end.
Proof. unfold column. simpl. by destruct (l !! index). Qed.

(** A pass appends the column at [index] and counts it. *)
Lemma visit_fold index allLists merged added :
  fold_left (visit index) allLists (merged, added) =
    (merged ++ column index allLists, added + length (column index allLists)).
Proof.
  revert merged added.
  induction allLists as [|l ls IH]; intros merged added.
  - simpl. by rewrite app_nil_r, Nat.add_0_r.
  - rewrite column_cons. cbn [fold_left visit].
    destruct (l !! index) as [x|] eqn:Hl.
    + apply lookup_lt_Some in Hl. rewrite bool_decide_eq_true_2 by done.
      rewrite IH, <- app_assoc. cbn [length app]. f_equal. lia.
    + case_bool_decide; apply IH.
Qed.

Lemma pass_column index allLists merged :
  pass index allLists merged =
    (merged ++ column index allLists, length (column index allLists)).
Proof. unfold pass. by rewrite visit_fold. Qed.

Lemma column_beyond index allLists :
  maxLength allLists <= index -> column index allLists = [].
Proof.
  unfold maxLength. induction allLists as [|l ls IH]; [done|].
  cbn [max_list_with]. intros Hle.
  rewrite column_cons, lookup_ge_None_2 by lia. apply IH. lia.
Qed.

(** The loop from [index] on appends the remaining columns in order. *)
Lemma mergeLoop_columns allLists (k : nat) : forall index merged,
  maxLength allLists - index = k ->
  mergeLoop allLists index merged =
    merged ++ mjoin ((fun i => column i allLists) <$> seq index k).
Proof.
  induction k as [|k IH]; intros index merged Hk.
  - rewrite mergeLoop_body, pass_column.
    rewrite column_beyond by lia. simpl. by rewrite !app_nil_r.
  - rewrite mergeLoop_body, pass_column.
    destruct (column index allLists) as [|x col] eqn:Hcol.
    + (* an empty column below the longest list cannot occur *)
      exfalso.
      assert (Hlt : index < maxLength allLists) by lia.
      clear -Hcol Hlt. unfold maxLength in Hlt.
      induction allLists as [|l ls IHl]; cbn [max_list_with] in *; [lia|].
      rewrite column_cons in Hcol.
      destruct (l !! index) eqn:Hl; [done|].
      apply lookup_ge_None in Hl. apply IHl; [done | lia].
    + cbn [length]. rewrite (IH (S index)) by lia.
      cbn [seq fmap list_fmap mjoin list_join]. rewrite Hcol.
      by rewrite <- app_assoc.
Qed.

Lemma mergeRoundRobin_roundRobin allLists :
  mergeRoundRobin allLists = roundRobin allLists.
Proof.
  unfold mergeRoundRobin, roundRobin.
  rewrite (mergeLoop_columns allLists (maxLength allLists)); [done | lia].
Qed.

End MergeFacts.

(** C1: the merge of [runSearch] is the round-robin interleave of the
    lists it is given: index 0 of every list that has one, then index 1,
    and so on until all lists are exhausted.  For [[a1,a2]], [[b1]],
    [[c1,c2,c3]] it yields [[a1,b1,c1,a2,c2,c3]], and the [mergedResults]
    of every search are this interleave of the per-provider lists. *)
Theorem merged_output_is_round_robin :
  (forall (A : Type) (allLists : list (list A)),
     SearchService.mergeRoundRobin allLists = roundRobin allLists)
  /\ (forall (A : Type) (a1 a2 b1 c1 c2 c3 : A),
        SearchService.mergeRoundRobin [[a1; a2]; [b1]; [c1; c2; c3]]
          = [a1; b1; c1; a2; c2; c3])
  /\ (forall w apis query options,
        let r := (SearchService.runSearch w apis query options).1 in
        SearchService.mergedResults r
          = roundRobin (JsObject.values (SearchService.perProviderResults r))).
Proof.
  split_and!.
  - intros A allLists. apply mergeRoundRobin_roundRobin.
  - intros A a1 a2 b1 c1 c2 c3. by rewrite mergeRoundRobin_roundRobin.
  - intros w apis query options. unfold SearchService.runSearch.
    case_bool_decide; simpl; [done|]. apply mergeRoundRobin_roundRobin.
Qed.

Section SearchFacts.
Import SearchService.

Lemma dropWhile_length f s : length (dropWhile f s) <= length s.
Proof.
  induction s as [|c s IH]; simpl; [done|]. destruct (f c); simpl; lia.
Qed.

Lemma trim_length s : length (trim s) <= length s.
Proof.
  unfold trim. rewrite length_reverse.
  etransitivity; [apply dropWhile_length|]. rewrite length_reverse.
  apply dropWhile_length.
Qed.

(** A provider that does not contribute a list leaves the object as it is. *)
Lemma settle_resolvedList w quick trimmed o p :
  settle w quick trimmed o p =
    match resolvedList w quick trimmed p with
    | Some kv => JsObject.set kv.1 kv.2 o
    | None => o
    end.
Proof.
  unfold settle, resolvedList.
  by destruct (searchOf w p quick trimmed) as [| |[results|]].
Qed.

Lemma settle_fold w quick trimmed ps o :
  fold_left (settle w quick trimmed) ps o =
    fold_left (fun o kv => JsObject.set kv.1 kv.2 o)
      (omap (resolvedList w quick trimmed) ps) o.
Proof.
  revert o. induction ps as [|p ps IH]; intros o; [done|].
  cbn [fold_left omap list_omap]. rewrite settle_resolvedList.
  destruct (resolvedList w quick trimmed p); apply IH.
Qed.

Lemma omap_cons {X Y : Type} (f : X -> option Y) x l :
  omap f (x :: l) =
    match f x with
    | Some y => y :: omap f l
    | None => omap f l
    end.
Proof. done. Qed.


End SearchFacts.

(** C7: a query shorter than two code units is answered at once with the
    idle result, empty [mergedResults] and empty [perProviderResults], and
    no provider (nor the Stremio service) is called. *)
Theorem short_query_short_circuits w apis query options :
  length query < 2 ->
  SearchService.runSearch w apis query options =
    ({| SearchService.status := SearchService.idle;
        SearchService.query := SearchService.trim query;
        SearchService.mergedResults := [];
        SearchService.perProviderResults := JsObject.empty;
        SearchService.error_message := None |}, []).
Proof.
  intros Hlen. unfold SearchService.runSearch.
  pose proof (trim_length query).
  rewrite bool_decide_eq_true_2 by lia. done.
Qed.

Lemma short_query_short_circuits_witness :
  length (js "a") < 2
  /\ SearchService.runSearch sampleWorld [providerA; providerB; providerC]
       (js "a") SearchService.noOptions =
     ({| SearchService.status := SearchService.idle;
         SearchService.query := SearchService.trim (js "a");
         SearchService.mergedResults := [];
         SearchService.perProviderResults := JsObject.empty;
         SearchService.error_message := None |}, []).
Proof.
  split; [vm_compute; lia|].
  apply (short_query_short_circuits sampleWorld [providerA; providerB; providerC]
           (js "a") SearchService.noOptions).
  vm_compute; lia.
Defined.




Section LoaderFacts.
Import PluginLoader.

Lemma take_min_length {X : Type} (n : nat) (l : list X) :
  take (Nat.min n (length l)) l = take n l.
Proof.
  destruct (Nat.le_ge_cases n (length l)).
  - by rewrite Nat.min_l.
  - rewrite Nat.min_r by done. by rewrite !take_ge by lia.
Qed.

(** On the lengths that occur (at most 100) the floating-point test
    [count > len * 0.1] decides [10 * count > len]. *)
Lemma tenth_by_enumeration :
  forallb (fun len =>
    forallb (fun count =>
      Bool.eqb
        (PrimFloat.of_uint63 (Uint63Axioms.of_Z (Z.of_nat len)) * 0.1
           <? PrimFloat.of_uint63 (Uint63Axioms.of_Z (Z.of_nat count)))%float
        (tenthExceeded count len))
      (seq 0 101))
    (seq 0 101) = true.
Proof. vm_compute. reflexivity. Qed.

Lemma tenth_threshold {X Y : Type} (window : list X) (found : list Y) :
  length window <= 100 -> length found <= 100 ->
  (lengthNumber window * 0.1 <? lengthNumber found)%float
  = tenthExceeded (length found) (length window).
Proof.
  intros Hw Hf. unfold lengthNumber.
  pose proof tenth_by_enumeration as H.
  rewrite forallb_forall in H.
  specialize (H (length window)). rewrite forallb_forall in H.
  specialize (H ltac:(apply in_seq; lia) (length found) ltac:(apply in_seq; lia)).
  by apply Bool.eqb_prop in H.
Qed.

(** Which packages the loader hands to the JVM bridge. *)
Lemma isBinary_spec isBinaryFile text :
  isBinary isBinaryFile text = true <->
    isBinaryFile = true
    \/ startsWith text (js "PK") = true
    \/ startsWith text [100; 101; 120; 10]%N = true
    \/ length (take 100 text)
       < 10 * length (List.filter binaryChar (take 100 text)).
Proof.
  unfold isBinary, substring0. rewrite take_min_length.
  destruct isBinaryFile; [tauto|].
  destruct (startsWith text (js "PK")); [tauto|].
  destruct (startsWith text [100; 101; 120; 10]%N); [tauto|].
  assert (Hw : length (take 100 text) <= 100) by (rewrite length_take; lia).
  assert (Hf : length (List.filter binaryChar (take 100 text)) <= 100).
  { etransitivity; [apply List.filter_length_le | exact Hw]. }
  pose proof (tenth_threshold (take 100 text)
                (List.filter binaryChar (take 100 text)) Hw Hf) as Hten.
  destruct (List.filter binaryChar (take 100 text)) as [|c found] eqn:Hfound.
  - cbn [length]. split; [done|]. intros [?|[?|[?|?]]]; try done. lia.
  - rewrite Hten. unfold tenthExceeded. case_bool_decide; [tauto|].
    split; [done|]. intros [?|[?|[?|?]]]; done.
Qed.

Lemma binaryChar_isControl c : binaryChar c = true -> isControl c = true.
Proof.
  unfold binaryChar, isControl.
  rewrite !orb_true_iff, !andb_true_iff, !N.leb_le. lia.
Qed.

Lemma no_control_no_binaryChar text :
  Forall (fun c => isControl c = false) text ->
  List.filter binaryChar text = [].
Proof.
  induction 1 as [|c text Hc _ IH]; [done|]. simpl.
  destruct (binaryChar c) eqn:Hb; [|done].
  apply binaryChar_isControl in Hb. congruence.
Qed.

Lemma no_control_not_dex text :
  Forall (fun c => isControl c = false) text ->
  startsWith text [100; 101; 120; 10]%N = false.
Proof.
  intros H. destruct (startsWith _ _) eqn:Hs; [exfalso|done].
  destruct text as [|c1 [|c2 [|c3 [|c4 text]]]]; cbn [startsWith] in Hs;
    rewrite ?andb_false_r in Hs; try done.
  apply andb_true_iff in Hs as [_ Hs]. apply andb_true_iff in Hs as [_ Hs].
  apply andb_true_iff in Hs as [_ Hs]. apply andb_true_iff in Hs as [Hs _].
  apply N.eqb_eq in Hs. subst c4.
  do 3 apply Forall_cons_1 in H as [_ H]. apply Forall_cons_1 in H as [H _].
  done.
Qed.

End LoaderFacts.

(** C4, as the code has it: the package kind is a function of the code
    string together with the loader's flag [isBinaryFile]: a package is a
    ForeignBytecodeArchive exactly when the flag is set, or the code
    begins with 'PK' or with 'dex\n', or more than a tenth of its first
    100 code units are in the non-printable class.  So code beginning with
    'PK' is an archive whatever follows, a leading window with a high
    ratio of non-printable characters makes an archive, an unflagged
    string without control characters that does not begin with 'PK' is a
    ScriptedSource, and [loadPlugin] dispatches on exactly this kind. *)
Theorem classification_by_flag_and_bytes :
  (forall isBinaryFile code,
     classify isBinaryFile code = ForeignBytecodeArchive
     <-> isBinaryFile = true
         \/ startsWith code (js "PK") = true
         \/ startsWith code [100; 101; 120; 10]%N = true
         \/ length (take 100 code)
            < 10 * length (List.filter PluginLoader.binaryChar (take 100 code)))
  /\ (forall isBinaryFile rest,
        classify isBinaryFile (js "PK" ++ rest)
          = ForeignBytecodeArchive)
  /\ (forall isBinaryFile code,
        length (take 100 code)
          < 10 * length (List.filter PluginLoader.binaryChar (take 100 code)) ->
        classify isBinaryFile code
          = ForeignBytecodeArchive)
  /\ (forall code,
        Forall (fun c => isControl c = false) code ->
        startsWith code (js "PK") = false ->
        classify false code = ScriptedSource)
  /\ (forall w plugin repositoryUrl s,
        ApiHolder.getApi (sp_internalName plugin) (apis s) = None ->
        PluginLoader.loadPlugin w plugin repositoryUrl s =
          match PluginLoader.resolveCode w plugin repositoryUrl s with
          | (PluginLoader.Fails st, s') => (PluginLoader.failed st, s')
          | (PluginLoader.Proceeds code isBinaryFile, s') =>
              match classify isBinaryFile code with
              | ForeignBytecodeArchive =>
                  PluginLoader.loadBinary w plugin repositoryUrl s'
              | ScriptedSource =>
                  PluginLoader.loadScript w plugin repositoryUrl code s'
              end
          end).
Proof.
  assert (Hkind : forall isBinaryFile code,
     classify isBinaryFile code = ForeignBytecodeArchive
     <-> PluginLoader.isBinary isBinaryFile code = true).
  { intros b code. unfold classify.
    destruct (PluginLoader.isBinary b code); split; done. }
  split_and!.
  - intros b code. rewrite Hkind. apply isBinary_spec.
  - intros b rest. apply Hkind, isBinary_spec. right; left.
    by destruct rest; vm_compute.
  - intros b code Hratio. apply Hkind, isBinary_spec. auto.
  - intros code Hctl Hpk. unfold classify.
    destruct (PluginLoader.isBinary false code) eqn:Hb; [|done].
    apply isBinary_spec in Hb as [Hb|[Hb|[Hb|Hb]]]; [done|congruence| |].
    + by rewrite no_control_not_dex in Hb.
    + rewrite no_control_no_binaryChar in Hb; [simpl in Hb; lia|].
      by apply Forall_take.
  - intros w plugin repositoryUrl s Hnone. unfold PluginLoader.loadPlugin.
    rewrite Hnone.
    destruct (PluginLoader.resolveCode w plugin repositoryUrl s)
      as [[st|code b] s']; [done|].
    unfold classify. by destruct (PluginLoader.isBinary b code).
Qed.

(** C4 fails as stated: the same bytes are an archive when they arrive as
    an [ArrayBuffer] and a script when they arrive as text, and [loadPlugin]
    goes to the JVM bridge in the first case and evaluates the code in the
    second; besides, a source string without control characters that
    begins with 'PK' is classified as an archive. *)
Lemma classification_depends_on_transport :
  fromCharCode (String.list_byte_of_string "module.exports = {}") = scriptCode
  /\ classify true scriptCode = ForeignBytecodeArchive
  /\ classify false scriptCode = ScriptedSource
  /\ trace (PluginLoader.loadPlugin binaryWorld scriptPlugin sampleRepo initial).2
     = [EvDownload (sp_url scriptPlugin); EvHealth;
        EvDownload (sp_url scriptPlugin);
        EvRpcLoad (JVMBridge.getPluginKey scriptPlugin sampleRepo) "P" sampleRepo]
  /\ trace (PluginLoader.loadPlugin textWorld scriptPlugin sampleRepo initial).2
     = [EvDownload (sp_url scriptPlugin); EvExecute scriptCode]
  /\ Forall (fun c => isControl c = false) (js "PK = 1")
  /\ classify false (js "PK = 1")
     = ForeignBytecodeArchive.
Proof.
  split_and!; try (vm_compute; reflexivity).
  apply Forall_forall. intros c Hc. apply list_elem_of_In in Hc.
  vm_compute in Hc. intuition (subst; reflexivity).
Qed.

(** C10: when a handle is already registered under the descriptor's
    internal name, [loadPlugin] reports success and leaves the whole state
    as it was: nothing is downloaded or evaluated (the trace is the same),
    the registry, the cached code and the stored metadata are untouched,
    and the handle found is still the registered one. *)
Theorem already_registered_install_is_noop w plugin repositoryUrl s existing :
  ApiHolder.getApi (sp_internalName plugin) (apis s) = Some existing ->
  let '(res, s') := PluginLoader.loadPlugin w plugin repositoryUrl s in
  res = PluginLoader.succeeded
  /\ PluginLoader.error res = None
  /\ s' = s
  /\ trace s' = trace s
  /\ ApiHolder.getAllApis (apis s') = ApiHolder.getAllApis (apis s)
  /\ items s' = items s
  /\ storedPlugins s' = storedPlugins s
  /\ ApiHolder.getApi (sp_internalName plugin) (apis s') = Some existing.
Proof.
  intros Hex. unfold PluginLoader.loadPlugin. rewrite Hex. by split_and!.
Qed.

Lemma already_registered_install_is_noop_witness :
  ApiHolder.getApi (sp_internalName pluginA) (apis loadedState) = Some providerA
  /\ PluginLoader.loadPlugin textWorld pluginA sampleRepo loadedState
     = (PluginLoader.succeeded, loadedState).
Proof.
  assert (H : ApiHolder.getApi (sp_internalName pluginA) (apis loadedState)
              = Some providerA) by reflexivity.
  split; [exact H|].
  pose proof (already_registered_install_is_noop textWorld pluginA sampleRepo
                loadedState providerA H) as Hnoop.
  destruct (PluginLoader.loadPlugin textWorld pluginA sampleRepo loadedState)
    as [res s'].
  destruct Hnoop as (-> & _ & -> & _). reflexivity.
Defined.

Section TraceFacts.
Import PluginLoader.

(** The trace only grows: goals [trace s `prefix_of` trace s'] where
    [trace s'] is [trace s] with events appended. *)
Ltac trace_extends :=
  cbn [trace emit set_items set_apis set_isInitialized set_storedPlugins
       savePluginMetadata newObject fst snd];
  rewrite <- ?app_assoc;
  first [ reflexivity | apply prefix_app_r; reflexivity ].

Lemma bridge_downloadPlugin_trace w plugin repositoryUrl s :
  trace s `prefix_of` trace (JVMBridge.downloadPlugin w plugin repositoryUrl s).2.
Proof.
  unfold JVMBridge.downloadPlugin.
  destruct (_ && _); [reflexivity|].
  destruct (fetchPlugin w (sp_url plugin)) as [|[|c text]|bytes];
    destruct (electronAPI w);
    try destruct (ipcSavePluginFile w _ _);
    try destruct (fromCharCodeSpread w bytes); trace_extends.
Qed.

Lemma bridge_loadPlugin_trace w plugin repositoryUrl s :
  trace s `prefix_of` trace (JVMBridge.loadPlugin w plugin repositoryUrl s).2.
Proof.
  unfold JVMBridge.loadPlugin.
  assert (Hinit : trace s `prefix_of` trace (JVMBridge.initializeBridge s)).
  { unfold JVMBridge.initializeBridge. destruct (isInitialized s); trace_extends. }
  destruct (negb _); [exact Hinit|].
  etransitivity; [exact Hinit|].
  pose proof (bridge_downloadPlugin_trace w plugin repositoryUrl
                (JVMBridge.initializeBridge s)) as Hdl.
  destruct (JVMBridge.downloadPlugin w plugin repositoryUrl _) as [[path|] s'];
    [|exact Hdl].
  etransitivity; [exact Hdl|].
  destruct (rpcLoad w path _ _); trace_extends.
Qed.

Lemma loadBinary_trace w plugin repositoryUrl s :
  trace s `prefix_of` trace (loadBinary w plugin repositoryUrl s).2.
Proof.
  unfold loadBinary.
  pose proof (bridge_loadPlugin_trace w plugin repositoryUrl s) as Hb.
  destruct (JVMBridge.loadPlugin w plugin repositoryUrl s) as [[[|]|] s'];
    exact Hb.
Qed.

Lemma loadScript_trace w plugin repositoryUrl code s :
  trace (loadScript w plugin repositoryUrl code s).2 = trace s ++ [EvExecute code].
Proof.
  unfold loadScript.
  destruct (evalPlugin w code) as [|[|hasSearch hasLoad nm murl]]; try done.
  by destruct (negb hasSearch || negb hasLoad).
Qed.

End TraceFacts.

(** C5 at a plugin whose catalogue entry moves from version 1 to version
    2: the plugin is installed at version 1 and uninstalled, then the
    catalogue serves the script of version 2 under the same URL and the
    descriptor of version 2 is installed.  The second install finds the
    code of version 1 in the cache, requests nothing (its only event is
    the evaluation of the cached code), and records version 2 for the
    code of version 1, which stays in the cache. *)
Lemma stale_cache_is_not_refetched :
  let installed :=
    PluginLoader.loadPlugin providerWorld (withVersion 1 scriptPlugin)
      sampleRepo initial in
  let s1 := PluginLoader.unloadPlugin "P" installed.2 in
  let updated := PluginLoader.loadPlugin updatedWorld scriptPlugin sampleRepo s1 in
  installed.1 = PluginLoader.succeeded
  /\ trace s1 = [EvDownload (sp_url scriptPlugin); EvExecute providerCode]
  /\ (version <$> storedRecord "P" s1) = Some 1%Z
  /\ ApiHolder.getApi "P" (apis s1) = None
  /\ PluginLoader.getStoredPluginCode "P" sampleRepo s1 = Some providerCode
  /\ sp_version scriptPlugin = 2%Z
  /\ fetchPlugin updatedWorld (sp_url scriptPlugin) = DlText providerCode2
  /\ providerCode2 <> providerCode
  /\ updated.1 = PluginLoader.succeeded
  /\ trace updated.2 = trace s1 ++ [EvExecute providerCode]
  /\ length (List.filter (isDownloadOf (sp_url scriptPlugin)) (trace updated.2))
     = length (List.filter (isDownloadOf (sp_url scriptPlugin)) (trace s1))
  /\ (version <$> storedRecord "P" updated.2) = Some 2%Z
  /\ PluginLoader.getStoredPluginCode "P" sampleRepo updated.2
     = Some providerCode.
Proof. cbv zeta. split_and!; by vm_compute. Qed.

Section UnloadFacts.
Import PluginLoader.

(** Saving the disabled copy of the record found for [nm] overwrites that
    record where it stands. *)
Lemma save_disabled_in_place nm plugins r :
  byName nm plugins = Some r ->
  match list_find (fun p => internalName p = internalName (disabled r)
                            /\ repositoryUrl p = repositoryUrl (disabled r))
          plugins with
  | Some (index, _) => <[index := disabled r]> plugins
  | None => plugins ++ [disabled r]
  end = disableFirst nm plugins.
Proof.
  unfold byName. induction plugins as [|p ps IH]; [done|].
  cbn [List.find disableFirst list_find]. case_bool_decide as Hp.
  - intros [= ->]. cbn [disabled internalName repositoryUrl].
    rewrite decide_True by done. done.
  - intros Hfind. specialize (IH Hfind).
    assert (Hr : internalName r = nm).
    { apply find_some in Hfind as [_ Hb]. by apply bool_decide_eq_true in Hb. }
    cbn [disabled internalName repositoryUrl] in *.
    rewrite decide_False by (intros [? _]; congruence).
    destruct (list_find _ ps) as [[i q]|]; cbn [fmap option_fmap option_map prod_map fst snd].
    + change (p :: <[i := disabled r]> ps = p :: disableFirst nm ps).
      by rewrite IH.
    + apply find_some in Hfind as [Hin Hb].
      exfalso. clear -IH Hin Hb Hr.
      assert (Hlen : length (ps ++ [disabled r]) = length (disableFirst nm ps))
        by (by rewrite IH).
      rewrite length_app in Hlen. cbn [length] in Hlen.
      assert (length (disableFirst nm ps) = length ps).
      { clear. induction ps as [|p ps IH]; [done|]. cbn [disableFirst].
        case_bool_decide; cbn [length]; by rewrite ?IH. }
      lia.
Qed.




Lemma named_disableFirst nm plugins r :
  List.filter (fun p => bool_decide (internalName p = nm)) plugins = [r] ->
  List.filter (fun p => bool_decide (internalName p = nm))
    (disableFirst nm plugins) = [disabled r].
Proof.
  induction plugins as [|p ps IH]; [done|].
  cbn [List.filter disableFirst]. case_bool_decide as Hp.
  - intros [= -> Hps]. cbn [List.filter disabled internalName].
    rewrite bool_decide_eq_true_2 by done. by rewrite Hps.
  - intros Hps. cbn [List.filter]. rewrite bool_decide_eq_false_2 by done. auto.
Qed.

(** What [unloadPlugin] does to the stored records. *)
Lemma unloadPlugin_stored nm s r :
  storedRecord nm s = Some r ->
  storedPlugins (unloadPlugin nm s) = Some (disableFirst nm (getStoredPlugins s)).
Proof.
  unfold storedRecord. intros Hfind. unfold unloadPlugin. rewrite Hfind.
  pose proof (save_disabled_in_place nm (getStoredPlugins s) r Hfind) as Hsave.
  destruct (ApiHolder.getApi nm (apis s));
    unfold savePluginMetadata; cbn [storedPlugins set_storedPlugins];
    f_equal; exact Hsave.
Qed.

Lemma unloadPlugin_trace nm s : trace (unloadPlugin nm s) = trace s.
Proof.
  unfold unloadPlugin.
  destruct (List.find _ _); [|done].
  by destruct (ApiHolder.getApi nm (apis s)).
Qed.

End UnloadFacts.

(** C9 at a name installed from two repositories: the plugin P is
    installed from one repository and uninstalled, then installed from a
    second repository that lists the same internal name, so that two
    records are stored for the name, one per repository.  Uninstalling P
    then removes its handle from the registry, but the record of the
    second repository keeps [enabled = true] after the first call and
    after the second one: [unloadPlugin] looks the record up by name only
    and finds the record of the first repository both times.  The plugins
    page still reports P as installed. *)
Lemma uninstall_leaves_other_record_enabled :
  let s1 := (PluginLoader.loadPlugin providerWorld scriptPlugin sampleRepo initial).2 in
  let s2 := PluginLoader.unloadPlugin "P" s1 in
  let s3 := (PluginLoader.loadPlugin providerWorld scriptPlugin otherRepo s2).2 in
  let s4 := PluginLoader.unloadPlugin "P" s3 in
  let s5 := PluginLoader.unloadPlugin "P" s4 in
  let flags (s : State) :=
    (fun p => (repositoryUrl p, enabled p)) <$> recordsNamed "P" s in
  flags s1 = [(sampleRepo, true)]
  /\ flags s2 = [(sampleRepo, false)]
  /\ flags s3 = [(sampleRepo, false); (otherRepo, true)]
  /\ names (ApiHolder.getAllApis (apis s3)) = ["P"]
  /\ ApiHolder.getApi "P" (apis s4) = None
  /\ flags s4 = [(sampleRepo, false); (otherRepo, true)]
  /\ isPluginInstalled (PluginLoader.getStoredPlugins s4) "P" = true
  /\ ApiHolder.getApi "P" (apis s5) = None
  /\ flags s5 = [(sampleRepo, false); (otherRepo, true)]
  /\ isPluginInstalled (PluginLoader.getStoredPlugins s5) "P" = true.
Proof. cbv zeta. split_and!; by vm_compute. Qed.


(** Two uninstalls of the compiled sample plugin, and of a name that was
    never installed. *)
Example unloadPlugin_twice_sample :
  let s := (PluginLoader.loadPlugin bridgeWorld dexPlugin sampleRepo initial).2 in
  let s1 := PluginLoader.unloadPlugin "Dex" s in
  let s2 := PluginLoader.unloadPlugin "Dex" s1 in
  (enabled <$> PluginLoader.getStoredPlugins s) = [true]
  /\ (enabled <$> PluginLoader.getStoredPlugins s1) = [false]
  /\ (enabled <$> PluginLoader.getStoredPlugins s2) = [false]
  /\ PluginLoader.getStoredPlugins (PluginLoader.unloadPlugin "Other" s)
     = PluginLoader.getStoredPlugins s.
Proof. by vm_compute. Qed.

(** C6 at a compiled plugin installed through the JVM bridge:
    [unloadPlugin] unregisters the proxy handle and keeps the record with
    [enabled = false], but sends nothing to the sidecar: the trace is the
    one the installation left, without any DELETE /plugin/{pluginId}. *)
Lemma unload_sends_no_rpc_to_sidecar :
  let installed := PluginLoader.loadPlugin bridgeWorld dexPlugin sampleRepo initial in
  let s1 := installed.2 in
  let s2 := PluginLoader.unloadPlugin (sp_internalName dexPlugin) s1 in
  installed.1 = PluginLoader.succeeded
  /\ (EvRpcLoad "C:/plugins/Dex.cs3" "Dex" sampleRepo ∈ trace s1)
  /\ names (ApiHolder.getAllApis (apis s1)) = ["Dex"]
  /\ ApiHolder.getApi "Dex" (apis s2) = None
  /\ (enabled <$> storedRecord "Dex" s2) = Some false
  /\ trace s2 = trace s1
  /\ (EvRpcUnload "Dex" ∉ trace s2)
  /\ trace (JVMBridge.unloadPlugin "Dex" s1) = trace s1.
Proof.
  cbv zeta.
  split_and!; try (vm_compute; reflexivity).
  - assert (trace (PluginLoader.loadPlugin bridgeWorld dexPlugin sampleRepo
                     initial).2
            = [EvDownload (sp_url dexPlugin); EvHealth;
               EvDownload (sp_url dexPlugin); EvIpcSave "Dex" sampleRepo;
               EvRpcLoad "C:/plugins/Dex.cs3" "Dex" sampleRepo]) as ->
      by (vm_compute; reflexivity).
    do 4 apply list_elem_of_further. apply list_elem_of_here.
  - rewrite unloadPlugin_trace.
    assert (trace (PluginLoader.loadPlugin bridgeWorld dexPlugin sampleRepo
                     initial).2
            = [EvDownload (sp_url dexPlugin); EvHealth;
               EvDownload (sp_url dexPlugin); EvIpcSave "Dex" sampleRepo;
               EvRpcLoad "C:/plugins/Dex.cs3" "Dex" sampleRepo]) as ->
      by (vm_compute; reflexivity).
    intros Hin. repeat (apply elem_of_cons in Hin as [Hin|Hin]; [done|]).
    by apply elem_of_nil in Hin.
Qed.

Section FloatFacts.

Lemma SFcompare_antisym a b :
  SFcompare b a = option_map CompOpp (SFcompare a b).
Proof.
  destruct a as [sa|sa| |sa ma ea], b as [sb|sb| |sb mb eb];
    try reflexivity; try (destruct sa; reflexivity);
    try (destruct sb; reflexivity); try (destruct sa, sb; reflexivity).
  cbn [SFcompare option_map].
  destruct sa, sb; try reflexivity; f_equal;
    rewrite (Z.compare_antisym ea eb);
    destruct (ea ?= eb)%Z; cbn [CompOpp]; try reflexivity;
    change (Pos.compare_cont Eq mb ma) with (mb ?= ma)%positive;
    change (Pos.compare_cont Eq ma mb) with (ma ?= mb)%positive;
    rewrite (Pos.compare_antisym ma mb); by destruct (ma ?= mb)%positive.
Qed.

Lemma SFcompare_None a b :
  SFcompare a b = None -> a = S754_nan \/ b = S754_nan.
Proof.
  destruct a as [sa|sa| |sa ma ea], b as [sb|sb| |sb mb eb]; cbn [SFcompare];
    intros H; try discriminate H; auto.
Qed.

Lemma is_nan_false x : is_nan x = false -> Prim2SF x <> S754_nan.
Proof.
  unfold is_nan. rewrite FloatAxioms.eqb_spec. intros H Hnan.
  rewrite Hnan in H. discriminate H.
Qed.

(** On numbers, [x < y] is the negation of [y <= x]. *)
Lemma ltb_negb_leb x y :
  is_nan x = false -> is_nan y = false ->
  (x <? y)%float = negb (y <=? x)%float.
Proof.
  intros Hx%is_nan_false Hy%is_nan_false.
  rewrite ltb_spec, leb_spec. unfold SFltb, SFleb.
  rewrite (SFcompare_antisym (Prim2SF x) (Prim2SF y)).
  destruct (SFcompare (Prim2SF x) (Prim2SF y)) as [[]|] eqn:Hc; try reflexivity.
  by apply SFcompare_None in Hc as [?|?].
Qed.

End FloatFacts.

(** C8, as the code has it: for an entry whose position, duration and
    quotient position/duration are numbers (not NaN), [shouldResume] is
    true exactly when [position >= 10] and ([duration <= 0] or
    [position / duration <= 0.9]); it is false at position 5 of 100,
    false at position 95 of 100 and true at position 50 of 100. *)
Theorem shouldResume_valid (e : ResumeService.ResumeData) :
  is_nan (ResumeService.position e) = false ->
  is_nan (ResumeService.duration e) = false ->
  is_nan (ResumeService.position e / ResumeService.duration e)%float = false ->
  (ResumeService.shouldResume (Some e) = true
   <-> (10 <=? ResumeService.position e)%float = true
       /\ ((ResumeService.duration e <=? 0)%float = true
           \/ (ResumeService.position e / ResumeService.duration e <=? 0.9)%float
              = true))
  /\ ResumeService.shouldResume (Some (entry 5 100)) = false
  /\ ResumeService.shouldResume (Some (entry 95 100)) = false
  /\ ResumeService.shouldResume (Some (entry 50 100)) = true.
Proof.
  intros Hp Hd Hq. split; [|by vm_compute].
  unfold ResumeService.shouldResume.
  rewrite (ltb_negb_leb (ResumeService.position e) 10 Hp eq_refl).
  rewrite (ltb_negb_leb 0 (ResumeService.duration e) eq_refl Hd).
  rewrite (ltb_negb_leb 0.9 _ eq_refl Hq).
  destruct (10 <=? ResumeService.position e)%float,
           (ResumeService.duration e <=? 0)%float,
           (ResumeService.position e / ResumeService.duration e <=? 0.9)%float;
    cbn; intuition congruence.
Qed.

Lemma shouldResume_valid_witness :
  ResumeService.shouldResume (Some (entry 50 100)) = true
  <-> (10 <=? 50)%float = true
      /\ ((100 <=? 0)%float = true \/ (50 / 100 <=? 0.9)%float = true).
Proof.
  apply (shouldResume_valid (entry 50 100)); vm_compute; reflexivity.
Defined.

(** C8 fails as stated at a position that is not a number: the entry is
    resumed although [position >= 10] does not hold. *)
Lemma nan_position_is_resumed :
  ResumeService.shouldResume (Some (entry nan 100)) = true
  /\ (10 <=? ResumeService.position (entry nan 100))%float = false
  /\ ~ (ResumeService.shouldResume (Some (entry nan 100)) = true
        <-> (10 <=? ResumeService.position (entry nan 100))%float = true
            /\ ((ResumeService.duration (entry nan 100) <=? 0)%float = true
                \/ (ResumeService.position (entry nan 100)
                    / ResumeService.duration (entry nan 100) <=? 0.9)%float
                   = true)).
Proof.
  assert (H1 : ResumeService.shouldResume (Some (entry nan 100)) = true)
    by (vm_compute; reflexivity).
  assert (H2 : (10 <=? ResumeService.position (entry nan 100))%float = false)
    by (vm_compute; reflexivity).
  split_and!; [exact H1 | exact H2 |].
  intros [Hiff _]. destruct (Hiff H1) as [H _]. congruence.
Qed.

(** * Further properties of the registry *)

Section RegistryMore.
Import ApiHolder.

Lemma find_filter_keep {X : Type} (f g : X -> bool) (l : list X) :
  (forall x, x ∈ l -> f x = true -> g x = true) ->
  List.find f (List.filter g l) = List.find f l.
Proof.
  induction l as [|x l IH]; intros H; [done|].
  cbn [List.filter List.find].
  assert (Hl : forall y, y ∈ l -> f y = true -> g y = true).
  { intros y Hy. apply H. by apply list_elem_of_further. }
  destruct (f x) eqn:Hf.
  - rewrite (H x) by (done || apply list_elem_of_here).
    cbn [List.find]. by rewrite Hf.
  - destruct (g x); cbn [List.find]; rewrite ?Hf; auto.
Qed.

Lemma find_app_miss {X : Type} (f : X -> bool) (l : list X) (x : X) :
  f x = false -> List.find f (l ++ [x]) = List.find f l.
Proof.
  intros Hx. induction l as [|y l IH]; cbn [app List.find].
  - by rewrite Hx.
  - destruct (f y); auto.
Qed.

Lemma removePlugin_absent plugin apis :
  (forall h, h ∈ apis -> ref h <> ref plugin) ->
  removePlugin plugin apis = apis.
Proof.
  unfold removePlugin, same_object.
  induction apis as [|h apis IH]; intros H; [done|].
  cbn [List.filter].
  rewrite bool_decide_eq_false_2 by (apply H, list_elem_of_here).
  cbn [negb]. f_equal. apply IH. intros h' Hh'. apply H.
  by apply list_elem_of_further.
Qed.

Lemma removePlugin_gone plugin apis h :
  h ∈ removePlugin plugin apis -> ref h <> ref plugin /\ h ∈ apis.
Proof.
  unfold removePlugin, same_object. intros Hin.
  apply list_elem_of_In, filter_In in Hin as [Hin Hb].
  apply negb_true_iff, bool_decide_eq_false in Hb.
  split; [done | by apply list_elem_of_In].
Qed.

End RegistryMore.

(** X1: [removePlugin] of a handle that is not registered changes
    nothing, the removed handle is nowhere in the registry afterwards, and
    removing it a second time changes nothing more. *)
Theorem removePlugin_unknown_and_twice (plugin : MainAPI) (apis : ApiHolder.t) :
  ((forall h, h ∈ apis -> ref h <> ref plugin) ->
   ApiHolder.removePlugin plugin apis = apis)
  /\ (forall h, h ∈ ApiHolder.removePlugin plugin apis -> ref h <> ref plugin)
  /\ ApiHolder.removePlugin plugin (ApiHolder.removePlugin plugin apis)
     = ApiHolder.removePlugin plugin apis.
Proof.
  split_and!.
  - apply removePlugin_absent.
  - intros h Hh. by apply removePlugin_gone in Hh as [? _].
  - apply removePlugin_absent. intros h Hh.
    by apply removePlugin_gone in Hh as [? _].
Qed.

(** X2: registering a handle does not disturb the handles of other
    names: in a registry of distinct objects, the lookup of any name other
    than the new handle's gives the same handle before and after
    [addPlugin]. *)
Theorem addPlugin_keeps_other_names (plugin : MainAPI) (apis : ApiHolder.t)
    (nm : string) :
  distinctObjects apis ->
  nm <> name plugin ->
  ApiHolder.getApi nm (ApiHolder.addPlugin plugin apis) = ApiHolder.getApi nm apis.
Proof.
  intros Hwf Hnm. unfold ApiHolder.addPlugin, ApiHolder.getApi.
  rewrite find_app_miss by (apply bool_decide_eq_false; congruence).
  destruct (List.find _ apis) as [existing|] eqn:Hex; [|done].
  apply find_some in Hex as [Hin Hname].
  apply bool_decide_eq_true in Hname. apply list_elem_of_In in Hin.
  unfold ApiHolder.removePlugin. apply find_filter_keep.
  intros h Hh Hhn. apply bool_decide_eq_true in Hhn.
  apply negb_true_iff, bool_decide_eq_false. intros Href.
  apply (Hwf h existing Hh Hin) in Href. congruence.
Qed.

Lemma addPlugin_keeps_other_names_witness :
  ApiHolder.getApi "B"
    (ApiHolder.addPlugin {| ref := 9; name := "A"; mainUrl := "https://a2.example" |}
       [providerA; providerB; providerC])
  = Some providerB.
Proof.
  rewrite (addPlugin_keeps_other_names _ [providerA; providerB; providerC] "B").
  - reflexivity.
  - intros h1 h2 H1 H2 Href.
    repeat (apply elem_of_cons in H1 as [->|H1]);
      repeat (apply elem_of_cons in H2 as [->|H2]);
      try done; try (by apply elem_of_nil in H1); by apply elem_of_nil in H2.
  - done.
Defined.

(** X3: after any sequence of registry operations, registering a handle
    and then removing it leaves no handle answering to its name, and names
    are still unique. *)
Theorem register_then_unregister (ops : list ApiHolder.Op) (plugin : MainAPI) :
  let apis :=
    ApiHolder.removePlugin plugin (ApiHolder.addPlugin plugin (ApiHolder.run ops)) in
  ApiHolder.getApi (name plugin) apis = None
  /\ NoDup (names (ApiHolder.getAllApis apis)).
Proof.
  cbv zeta. pose proof (run_NoDup ops) as Hnd. split.
  - apply find_name_None. intros Hin.
    apply list_elem_of_fmap in Hin as (h & Hname & Hh).
    apply removePlugin_gone in Hh as [Href Hh].
    pose proof (addPlugin_exactly_one plugin (ApiHolder.run ops) Hnd) as Hone.
    assert (Hh' : h ∈ handles_named (name plugin)
                    (ApiHolder.addPlugin plugin (ApiHolder.run ops))).
    { unfold handles_named. apply list_elem_of_In, filter_In.
      split; [by apply list_elem_of_In | by apply bool_decide_eq_true]. }
    rewrite Hone in Hh'. apply list_elem_of_singleton in Hh'. by subst h.
  - apply NoDup_names_filter. by apply addPlugin_NoDup.
Qed.

(** * Further properties of the merge *)

Section MergeMore.
Context {A : Type}.
Implicit Types (l : list A) (allLists : list (list A)).
Import SearchService.

Lemma column_cons_app index l allLists :
  column index (l :: allLists) = option_list (l !! index) ++ column index allLists.
Proof. rewrite column_cons. by destruct (l !! index). Qed.

Lemma own_elements_from l (n k : nat) :
  mjoin ((fun index => option_list (l !! index)) <$> seq k n) = take n (drop k l).
Proof.
  revert k. induction n as [|n IH]; intros k; [done|].
  cbn [seq fmap list_fmap mjoin list_join]. rewrite IH.
  destruct (l !! k) as [x|] eqn:Hk.
  - rewrite (drop_S l x k Hk). reflexivity.
  - apply lookup_ge_None in Hk. rewrite !drop_ge by lia. by rewrite !take_nil.
Qed.

Lemma own_elements l (n : nat) :
  length l <= n ->
  mjoin ((fun index => option_list (l !! index)) <$> seq 0 n) = l.
Proof. intros Hn. rewrite own_elements_from, drop_0. by apply take_ge. Qed.

Lemma columns_beyond allLists (n k : nat) :
  maxLength allLists <= k ->
  mjoin ((fun index => column index allLists) <$> seq k n) = [].
Proof.
  revert k. induction n as [|n IH]; intros k Hk; [done|].
  cbn [seq fmap list_fmap mjoin list_join].
  rewrite column_beyond by done. rewrite IH by lia. done.
Qed.

Lemma columnsUpTo_ge allLists (n : nat) :
  maxLength allLists <= n -> columnsUpTo n allLists = roundRobin allLists.
Proof.
  intros Hn. unfold columnsUpTo, roundRobin.
  replace n with (maxLength allLists + (n - maxLength allLists)) by lia.
  rewrite seq_app, fmap_app, join_app.
  rewrite (columns_beyond allLists _ (0 + maxLength allLists)) by lia.
  by rewrite app_nil_r.
Qed.

Lemma join_pointwise_app (f g : nat -> list A) (indices : list nat) :
  mjoin ((fun i => f i ++ g i) <$> indices)
  ≡ₚ mjoin (f <$> indices) ++ mjoin (g <$> indices).
Proof.
  induction indices as [|i indices IH]; [done|].
  cbn [fmap list_fmap mjoin list_join]. rewrite IH.
  rewrite <- !app_assoc. apply Permutation_app_head.
  rewrite !app_assoc. apply Permutation_app_tail, Permutation_app_comm.
Qed.

Lemma roundRobin_cons_columns l allLists :
  roundRobin (l :: allLists)
  = mjoin ((fun i => option_list (l !! i) ++ column i allLists)
             <$> seq 0 (maxLength (l :: allLists))).
Proof.
  unfold roundRobin. f_equal. apply list_fmap_ext. intros _ i _.
  apply column_cons_app.
Qed.

Lemma roundRobin_Permutation allLists : roundRobin allLists ≡ₚ mjoin allLists.
Proof.
  induction allLists as [|l ls IH]; [done|].
  rewrite roundRobin_cons_columns, join_pointwise_app.
  cbn [mjoin list_join].
  assert (Hmax : maxLength (l :: ls) = length l `max` maxLength ls) by done.
  rewrite own_elements by lia.
  fold (columnsUpTo (maxLength (l :: ls)) ls).
  rewrite columnsUpTo_ge by lia. by rewrite IH.
Qed.

Lemma join_pointwise_sublist (f g : nat -> list A) (indices : list nat) :
  (forall i, f i `sublist_of` g i) ->
  mjoin (f <$> indices) `sublist_of` mjoin (g <$> indices).
Proof.
  intros H. induction indices as [|i indices IH]; [done|].
  cbn [fmap list_fmap mjoin list_join]. by apply sublist_app.
Qed.

Lemma own_column_sublist l allLists (i : nat) :
  l ∈ allLists -> option_list (l !! i) `sublist_of` column i allLists.
Proof.
  induction allLists as [|l' ls IH]; intros Hin.
  - by apply elem_of_nil in Hin.
  - rewrite column_cons_app. apply elem_of_cons in Hin as [<-|Hin].
    + apply sublist_inserts_r. done.
    + apply sublist_inserts_l. by apply IH.
Qed.

Lemma maxLength_elem l allLists : l ∈ allLists -> length l <= maxLength allLists.
Proof.
  unfold maxLength. induction allLists as [|l' ls IH]; intros Hin.
  - by apply elem_of_nil in Hin.
  - cbn [max_list_with]. apply elem_of_cons in Hin as [<-|Hin]; [lia|].
    apply IH in Hin. lia.
Qed.

Lemma roundRobin_sublist l allLists :
  l ∈ allLists -> l `sublist_of` roundRobin allLists.
Proof.
  intros Hin. pose proof (maxLength_elem l allLists Hin) as Hlen.
  rewrite <- (own_elements l (maxLength allLists) Hlen) at 1.
  apply join_pointwise_sublist. intros i. by apply own_column_sublist.
Qed.

Lemma roundRobin_single l : roundRobin [l] = l.
Proof.
  rewrite roundRobin_cons_columns.
  assert (Hcol : forall i, option_list (l !! i) ++ column i [] = option_list (l !! i)).
  { intros i. unfold column. cbn. apply app_nil_r. }
  transitivity (mjoin ((fun i => option_list (l !! i)) <$> seq 0 (maxLength [l]))).
  { f_equal. apply list_fmap_ext. intros _ i _. apply Hcol. }
  apply own_elements. unfold maxLength. cbn. lia.
Qed.

Lemma roundRobin_without_empty allLists :
  roundRobin (List.filter hasElements allLists) = roundRobin allLists.
Proof.
  unfold roundRobin.
  assert (Hmax : maxLength (List.filter hasElements allLists) = maxLength allLists).
  { unfold maxLength. induction allLists as [|[|x l] ls IH]; [done|exact IH|].
    cbn [List.filter hasElements max_list_with]. by rewrite IH. }
  rewrite Hmax. clear Hmax. f_equal. apply list_fmap_ext. intros _ i _.
  induction allLists as [|[|x l] ls IH]; [done| |].
  - cbn [List.filter hasElements]. by rewrite IH, column_cons_app.
  - cbn [List.filter hasElements]. rewrite !column_cons_app. by rewrite IH.
Qed.

End MergeMore.

(** X4: the merge loses nothing and invents nothing: its output is a
    rearrangement of all the elements of all the lists, so it has as many
    elements as the lists have together. *)
Theorem merge_keeps_every_result {A : Type} (allLists : list (list A)) :
  SearchService.mergeRoundRobin allLists ≡ₚ mjoin allLists
  /\ length (SearchService.mergeRoundRobin allLists)
     = sum_list (length <$> allLists).
Proof.
  rewrite mergeRoundRobin_roundRobin.
  pose proof (roundRobin_Permutation allLists) as Hperm.
  split; [exact Hperm|]. rewrite Hperm.
  induction allLists as [|l ls IH]; [done|].
  cbn [mjoin list_join fmap list_fmap sum_list sum_list_with].
  rewrite length_app. f_equal. apply IH. apply roundRobin_Permutation.
Qed.

(** X5: the merge keeps the order inside each list: every input list is
    a subsequence of the merged output. *)
Theorem merge_keeps_order_within_list {A : Type} (allLists : list (list A))
    (l : list A) :
  l ∈ allLists -> l `sublist_of` SearchService.mergeRoundRobin allLists.
Proof. intros Hin. rewrite mergeRoundRobin_roundRobin. by apply roundRobin_sublist. Qed.

Lemma merge_keeps_order_within_list_witness :
  [2; 5] `sublist_of` SearchService.mergeRoundRobin [[1; 4]; [2; 5]; [3]].
Proof.
  apply (merge_keeps_order_within_list [[1; 4]; [2; 5]; [3]] [2; 5]).
  apply list_elem_of_further, list_elem_of_here.
Defined.

(** X6: a single list is merged into itself, and lists without elements
    do not influence the merge. *)
Theorem merge_single_and_empty_lists {A : Type} (l : list A)
    (allLists : list (list A)) :
  SearchService.mergeRoundRobin [l] = l
  /\ SearchService.mergeRoundRobin (List.filter hasElements allLists)
     = SearchService.mergeRoundRobin allLists.
Proof.
  rewrite !mergeRoundRobin_roundRobin. split.
  - apply roundRobin_single.
  - apply roundRobin_without_empty.
Qed.

(** * Further properties of the search *)

Section SearchMore.
Import SearchService.

Lemma dropWhile_all f s t :
  Forall (fun c => f c = true) s -> dropWhile f (s ++ t) = dropWhile f t.
Proof.
  induction 1 as [|c s Hc _ IH]; [done|]. cbn [app dropWhile]. by rewrite Hc.
Qed.

Lemma dropWhile_head f s c r : dropWhile f s = c :: r -> f c = false.
Proof.
  induction s as [|d s IH]; [done|]. cbn [dropWhile].
  destruct (f d) eqn:Hd; [exact IH|]. by intros [= <- _].
Qed.

Lemma dropWhile_nonBlank s :
  List.filter nonBlank (dropWhile isWhiteSpace s) = List.filter nonBlank s.
Proof.
  induction s as [|c s IH]; [done|]. cbn [dropWhile List.filter].
  unfold nonBlank at 2. destruct (isWhiteSpace c) eqn:Hc; cbn [negb]; [exact IH|].
  cbn [List.filter]. unfold nonBlank at 1. by rewrite Hc.
Qed.

Lemma no_nonBlank_all_blank s :
  List.filter nonBlank s = [] -> Forall (fun c => isWhiteSpace c = true) s.
Proof.
  induction s as [|c s IH]; [constructor|]. cbn [List.filter]. unfold nonBlank at 1.
  destruct (isWhiteSpace c) eqn:Hc; cbn [negb]; [|done].
  intros H. constructor; auto.
Qed.

Lemma trim_almost_blank query :
  length (List.filter nonBlank query) <= 1 -> length (trim query) <= 1.
Proof.
  intros Hlen. unfold trim. rewrite <- dropWhile_nonBlank in Hlen.
  destruct (dropWhile isWhiteSpace query) as [|c r] eqn:Hdrop; [by cbn|].
  pose proof (dropWhile_head _ _ _ _ Hdrop) as Hc.
  cbn [List.filter] in Hlen. unfold nonBlank at 1 in Hlen. rewrite Hc in Hlen.
  cbn [negb length] in Hlen.
  assert (Hr : List.filter nonBlank r = []).
  { destruct (List.filter nonBlank r); [done | cbn in Hlen; lia]. }
  apply no_nonBlank_all_blank in Hr.
  rewrite reverse_cons, dropWhile_all by (by apply Forall_reverse).
  cbn [dropWhile]. rewrite Hc. by cbn.
Qed.

Lemma runSearch_cases w apis query options :
  (length (trim query) <= 1
   /\ runSearch w apis query options = (idleResult (trim query), []))
  \/ (2 <= length (trim query)
      /\ runSearch w apis query options =
         (successResult (trim query)
            (addStremio w (trim query)
               (recordAll
                  (omap (resolvedList w (default false (quick options)) (trim query))
                     (settleOrder w
                        (List.filter
                           (selected (default [] (activeProviders options)))
                           (ApiHolder.getAllApis apis)))))),
          omap (searchCall w (default false (quick options)) (trim query))
            (List.filter (selected (default [] (activeProviders options)))
               (ApiHolder.getAllApis apis))
          ++ [EvStremioSearch (trim query)])).
Proof.
  unfold runSearch. case_bool_decide as Hlen; [left; by split|].
  right. split; [lia|]. unfold successResult, recordAll.
  by rewrite settle_fold.
Qed.

Lemma assign_keys {V : Type} (k : string) (v : V) (o : JsObject.t V) :
  keys (JsObject.assign k v o)
  = if bool_decide (k ∈ keys o) then keys o else keys o ++ [k].
Proof.
  unfold keys. induction o as [|[k' v'] o IH]; [done|].
  cbn [JsObject.assign fmap list_fmap fst]. destruct (decide (k' = k)) as [->|Hne].
  - by rewrite bool_decide_eq_true_2 by apply list_elem_of_here.
  - cbn [fmap list_fmap fst]. rewrite IH. case_bool_decide as Hin.
    + by rewrite bool_decide_eq_true_2 by (by apply list_elem_of_further).
    + rewrite bool_decide_eq_false_2; [done|].
      intros [?|?]%elem_of_cons; congruence.
Qed.

Lemma set_keys {V : Type} (k : string) (v : V) (o : JsObject.t V) :
  keys (JsObject.set k v o)
  = if bool_decide (k = "__proto__" \/ k ∈ keys o) then keys o else keys o ++ [k].
Proof.
  unfold JsObject.set. destruct (decide (k = "__proto__")) as [->|Hne].
  - by rewrite bool_decide_eq_true_2 by (by left).
  - rewrite assign_keys. case_bool_decide as Hin.
    + by rewrite bool_decide_eq_true_2 by (by right).
    + by rewrite bool_decide_eq_false_2 by (intros [?|?]; done).
Qed.

(** What all the keys of an object built by assignments satisfy. *)
Lemma set_keys_invariant {V : Type} (P : string -> Prop) (k : string) (v : V)
    (o : JsObject.t V) :
  let ok (o : JsObject.t V) :=
    NoDup (keys o) /\ ("__proto__" ∉ keys o) /\ Forall P (keys o) in
  P k -> ok o -> ok (JsObject.set k v o).
Proof.
  intros ok Hk (Hnd & Hproto & Hall). unfold ok. rewrite set_keys.
  case_bool_decide as Hin; [done|].
  split_and!.
  - apply NoDup_app. split_and!; [done| |apply NoDup_singleton].
    intros x Hx ->%list_elem_of_singleton. apply Hin. by right.
  - intros [?|Heq%list_elem_of_singleton]%elem_of_app; [done|].
    apply Hin. by left.
  - apply Forall_app. split; [done|]. by apply Forall_singleton.
Qed.

Lemma recordAll_keys_invariant (P : string -> Prop)
    (entries : list (string * list SearchResponse)) :
  Forall (fun kv => P kv.1) entries ->
  NoDup (keys (recordAll entries)) /\ ("__proto__" ∉ keys (recordAll entries))
  /\ Forall P (keys (recordAll entries)).
Proof.
  unfold recordAll.
  assert (Hgen : forall o : JsObject.t (list SearchResponse),
    Forall (fun kv => P kv.1) entries ->
    NoDup (keys o) /\ ("__proto__" ∉ keys o) /\ Forall P (keys o) ->
    NoDup (keys (fold_left (fun o kv => JsObject.set kv.1 kv.2 o) entries o))
    /\ ("__proto__" ∉ keys (fold_left (fun o kv => JsObject.set kv.1 kv.2 o) entries o))
    /\ Forall P (keys (fold_left (fun o kv => JsObject.set kv.1 kv.2 o) entries o))).
  { induction entries as [|kv entries IH]; intros o Hent Ho; [done|].
    apply Forall_cons_1 in Hent as [Hkv Hent]. cbn [fold_left].
    apply IH; [done|]. by apply set_keys_invariant. }
  intros Hent. apply Hgen; [done|]. split_and!.
  - apply NoDup_nil_2.
  - apply not_elem_of_nil.
  - constructor.
Qed.

Lemma resolvedList_names w quick trimmed (P : MainAPI -> Prop) ps :
  Forall P ps ->
  Forall (fun kv => exists p, P p /\ name p = kv.1
                              /\ searchOf w p quick trimmed = Resolves (Some kv.2))
    (omap (resolvedList w quick trimmed) ps).
Proof.
  induction 1 as [|p ps Hp _ IH]; [constructor|].
  rewrite omap_cons. unfold resolvedList at 1.
  destruct (searchOf w p quick trimmed) as [| |[results|]] eqn:Hs; try exact IH.
  constructor; [|exact IH]. by exists p.
Qed.

End SearchMore.

(** X7: a query with at most one character that is not white space
    (blank, or one character with white space around it) is answered with
    the idle result and the empty trimmed query or that one character; no
    provider and no Stremio add-on is searched. *)
Theorem almost_blank_query_short_circuits w apis query options :
  length (List.filter nonBlank query) <= 1 ->
  SearchService.runSearch w apis query options
  = (idleResult (SearchService.trim query), [])
  /\ length (SearchService.trim query) <= 1.
Proof.
  intros Hlen. apply trim_almost_blank in Hlen.
  destruct (runSearch_cases w apis query options) as [[_ ->]|[Hlong _]]; [done|lia].
Qed.

Lemma almost_blank_query_short_circuits_witness :
  SearchService.runSearch sampleWorld [providerA; providerB; providerC]
    (js "   a  ") SearchService.noOptions
  = (idleResult (js "a"), []).
Proof.
  destruct (almost_blank_query_short_circuits sampleWorld
              [providerA; providerB; providerC] (js "   a  ")
              SearchService.noOptions) as [H _].
  - vm_compute. lia.
  - exact H.
Defined.

Section SearchObject.
Import SearchService.

Lemma addStremio_keys_invariant w trimmed (P : string -> Prop)
    (entries : list (string * list SearchResponse)) :
  P "stremio" ->
  Forall (fun kv => P kv.1) entries ->
  let o := addStremio w trimmed (recordAll entries) in
  NoDup (keys o) /\ ("__proto__" ∉ keys o) /\ Forall P (keys o).
Proof.
  intros Hst Hent o. subst o.
  pose proof (recordAll_keys_invariant P entries Hent) as Hrec.
  unfold addStremio. destruct (stremioSearch w trimmed) as [results|]; [|done].
  case_bool_decide; [|done]. by apply set_keys_invariant.
Qed.

Lemma values_Permutation {V : Type} (o : JsObject.t V) :
  JsObject.values o ≡ₚ o.*2.
Proof.
  unfold JsObject.values. rewrite merge_sort_Permutation.
  unfold JsObject.indexed, JsObject.named.
  induction o as [|[k v] o IH]; [done|].
  rewrite omap_cons. cbn [List.filter fst snd].
  destruct (JsObject.arrayIndex k) as [i|] eqn:Hk; cbn [mbind option_bind].
  - rewrite bool_decide_eq_false_2 by done.
    cbn [fmap list_fmap snd app]. by rewrite IH.
  - rewrite bool_decide_eq_true_2 by done.
    cbn [fmap list_fmap snd]. rewrite <- Permutation_middle. by rewrite IH.
Qed.

Lemma values_creation_order {V : Type} (o : JsObject.t V) :
  Forall (fun k => JsObject.arrayIndex k = None) (keys o) ->
  JsObject.values o = o.*2.
Proof.
  intros Hnone. unfold JsObject.values, JsObject.indexed, JsObject.named.
  assert (Hidx : omap (fun kv : string * V =>
                   i ← JsObject.arrayIndex kv.1; Some (i, kv.2)) o = []).
  { unfold keys in Hnone. induction o as [|[k v] o IH]; [done|].
    apply Forall_cons_1 in Hnone as [Hk Hnone]. rewrite omap_cons.
    cbn [fst] in *. rewrite Hk. cbn [mbind option_bind]. by apply IH. }
  assert (Hnamed : List.filter (fun kv : string * V =>
                     bool_decide (JsObject.arrayIndex kv.1 = None)) o = o).
  { clear Hidx. unfold keys in Hnone. induction o as [|[k v] o IH]; [done|].
    apply Forall_cons_1 in Hnone as [Hk Hnone]. cbn [List.filter fst] in *.
    rewrite bool_decide_eq_true_2 by done. f_equal. by apply IH. }
  rewrite Hidx, Hnamed. done.
Qed.

Lemma sum_lengths_join {X : Type} (ls : list (list X)) :
  length (mjoin ls) = sum_list (length <$> ls).
Proof.
  induction ls as [|l ls IH]; [done|].
  change (mjoin (l :: ls)) with (l ++ mjoin ls).
  rewrite fmap_cons, length_app, IH. done.
Qed.

End SearchObject.

(** X8: when [activeProviders] names some providers, no other provider
    is searched and no other provider's list is recorded: every provider
    call is for a name in [activeProviders], and every key of the
    per-provider results is such a name or 'stremio'. *)
Theorem only_active_providers_are_searched w apis query options act :
  SearchService.activeProviders options = Some act ->
  act <> [] ->
  (forall ps, settleOrder w ps ≡ₚ ps) ->
  let res := SearchService.runSearch w apis query options in
  (forall nm k q, EvProviderSearch nm k q ∈ res.2 -> nm ∈ act)
  /\ (forall key, key ∈ keys (SearchService.perProviderResults res.1) ->
                  key = "stremio" \/ key ∈ act).
Proof.
  intros Hact Hne Hperm res. subst res.
  assert (Hsel : forall p, SearchService.selected act p = true -> name p ∈ act).
  { intros p. unfold SearchService.selected.
    rewrite bool_decide_eq_false_2 by (by destruct act).
    apply bool_decide_eq_true. }
  destruct (runSearch_cases w apis query options) as [[_ ->]|[_ ->]].
  { split; [by intros nm k q Hin%elem_of_nil | by intros key Hin%elem_of_nil]. }
  rewrite Hact. cbn [default fst snd]. split.
  - intros nm k q [Hin|Hin%list_elem_of_singleton]%elem_of_app; [|done].
    apply list_elem_of_omap in Hin as (p & Hp & Hcall).
    apply list_elem_of_In, filter_In in Hp as [_ Hp]. apply Hsel in Hp.
    unfold SearchService.searchCall in Hcall.
    destruct (searchOf w p _ _); by simplify_eq.
  - intros key Hkey. unfold successResult in Hkey.
    cbn [SearchService.perProviderResults] in Hkey.
    pose proof (addStremio_keys_invariant w (SearchService.trim query)
                  (fun k => k = "stremio" \/ k ∈ act)) as Hinv.
    edestruct Hinv as (_ & _ & Hall); [by left | | ].
    2: { rewrite Forall_forall in Hall. by apply Hall. }
    eapply Forall_impl.
    + apply (resolvedList_names w _ _ (fun p => name p ∈ act)).
      rewrite (Hperm _). apply Forall_forall. intros p Hp.
      apply list_elem_of_In, filter_In in Hp as [_ Hp]. by apply Hsel.
    + intros kv (p & Hp & <- & _). by right.
Qed.

Lemma only_active_providers_are_searched_witness :
  let res := SearchService.runSearch sampleWorld [providerA; providerB; providerC]
               (js "ab")
               {| SearchService.activeProviders := Some ["C"];
                  SearchService.quick := None |} in
  (forall nm k q, EvProviderSearch nm k q ∈ res.2 -> nm ∈ ["C"])
  /\ keys (SearchService.perProviderResults res.1) = ["C"].
Proof.
  split.
  - apply (only_active_providers_are_searched sampleWorld
             [providerA; providerB; providerC] (js "ab")
             {| SearchService.activeProviders := Some ["C"];
                SearchService.quick := None |} ["C"]); [done|done|].
    intros ps. reflexivity.
  - vm_compute. reflexivity.
Defined.

(** X9: the merged list of a search has as many results as the recorded
    per-provider lists have together, and when no recorded name is an
    array index the lists are merged in the order in which they were
    recorded. *)
Theorem merged_results_size_and_order w apis query options :
  let r := (SearchService.runSearch w apis query options).1 in
  length (SearchService.mergedResults r)
  = sum_list (length <$> (SearchService.perProviderResults r).*2)
  /\ (Forall (fun k => JsObject.arrayIndex k = None)
        (keys (SearchService.perProviderResults r)) ->
      SearchService.mergedResults r
      = roundRobin ((SearchService.perProviderResults r).*2)).
Proof.
  cbv zeta.
  destruct (runSearch_cases w apis query options) as [[_ ->]|[_ ->]];
    cbn [fst]; [by split|].
  unfold successResult.
  cbn [SearchService.mergedResults SearchService.perProviderResults].
  rewrite mergeRoundRobin_roundRobin. split.
  - rewrite roundRobin_Permutation, sum_lengths_join.
    by rewrite values_Permutation.
  - intros Hnone. by rewrite values_creation_order.
Qed.

(** X10: the per-provider results of a search hold one list per name:
    the keys are distinct, '__proto__' is never one of them, and every key
    is 'stremio' or the name of a registered provider whose search
    resolved with a list. *)
Theorem per_provider_results_keys w apis query options :
  (forall ps, settleOrder w ps ≡ₚ ps) ->
  let r := (SearchService.runSearch w apis query options).1 in
  NoDup (keys (SearchService.perProviderResults r))
  /\ ("__proto__" ∉ keys (SearchService.perProviderResults r))
  /\ forall key, key ∈ keys (SearchService.perProviderResults r) ->
       key = "stremio"
       \/ exists p results,
            p ∈ ApiHolder.getAllApis apis /\ name p = key
            /\ searchOf w p (default false (SearchService.quick options))
                 (SearchService.trim query) = Resolves (Some results).
Proof.
  intros Hperm. cbv zeta.
  destruct (runSearch_cases w apis query options) as [[_ ->]|[_ ->]]; cbn [fst].
  { split_and!; [apply NoDup_nil_2 | apply not_elem_of_nil |].
    by intros key Hin%elem_of_nil. }
  unfold successResult. cbn [SearchService.perProviderResults].
  edestruct (addStremio_keys_invariant w (SearchService.trim query)
    (fun key => key = "stremio"
       \/ exists p results,
            p ∈ ApiHolder.getAllApis apis /\ name p = key
            /\ searchOf w p (default false (SearchService.quick options))
                 (SearchService.trim query) = Resolves (Some results)))
    as (Hnd & Hproto & Hall); [by left | | ].
  2: { split_and!; [exact Hnd | exact Hproto |].
       rewrite Forall_forall in Hall. exact Hall. }
  eapply Forall_impl.
  - apply (resolvedList_names w _ _ (fun p => p ∈ ApiHolder.getAllApis apis)).
    rewrite (Hperm _). apply Forall_forall. intros p Hp.
    apply list_elem_of_In, filter_In in Hp as [Hp _]. by apply list_elem_of_In.
  - intros kv (p & Hp & Hname & Hs). right. by exists p, kv.2.
Qed.

Lemma per_provider_results_keys_witness :
  keys (SearchService.perProviderResults
          (SearchService.runSearch stremioWorld [providerA; providerB; providerC]
             (js "ab") SearchService.noOptions).1)
  = ["A"; "C"; "stremio"]
  /\ NoDup (keys (SearchService.perProviderResults
          (SearchService.runSearch stremioWorld [providerA; providerB; providerC]
             (js "ab") SearchService.noOptions).1)).
Proof.
  split; [vm_compute; reflexivity|].
  apply (per_provider_results_keys stremioWorld [providerA; providerB; providerC]
           (js "ab") SearchService.noOptions).
  intros ps. reflexivity.
Defined.

(** * Further properties of the stored plugin metadata *)

Section MetadataFacts.
Import PluginLoader.

Lemma savePluginMetadata_upsert plugin s :
  getStoredPlugins (savePluginMetadata plugin s)
  = upsert plugin (getStoredPlugins s).
Proof.
  unfold savePluginMetadata, getStoredPlugins at 1.
  cbn [storedPlugins set_storedPlugins default from_option id].
  generalize (getStoredPlugins s) as plugins.
  induction plugins as [|p ps IH]; [done|].
  cbn [list_find upsert]. unfold recordKey at 1 2.
  destruct (decide (internalName p = internalName plugin
                    /\ repositoryUrl p = repositoryUrl plugin)) as [[H1 H2]|Hne].
  - rewrite bool_decide_eq_true_2 by congruence. done.
  - rewrite bool_decide_eq_false_2 by (intros [= ? ?]; apply Hne; by split).
    destruct (list_find _ ps) as [[i q]|];
      cbn [fmap option_fmap option_map prod_map fst snd] in *.
    + change (p :: <[i := plugin]> ps = p :: upsert plugin ps). by rewrite IH.
    + change (p :: (ps ++ [plugin]) = p :: upsert plugin ps). by rewrite IH.
Qed.

Lemma upsert_lookup plugin plugins :
  List.find (fun p => bool_decide (recordKey p = recordKey plugin))
    (upsert plugin plugins) = Some plugin.
Proof.
  induction plugins as [|p ps IH]; cbn [upsert List.find].
  - by rewrite bool_decide_eq_true_2.
  - case_bool_decide as Hk; cbn [List.find].
    + by rewrite bool_decide_eq_true_2.
    + by rewrite bool_decide_eq_false_2.
Qed.

Lemma upsert_others plugin plugins :
  List.filter (fun p => negb (bool_decide (recordKey p = recordKey plugin)))
    (upsert plugin plugins)
  = List.filter (fun p => negb (bool_decide (recordKey p = recordKey plugin)))
      plugins.
Proof.
  induction plugins as [|p ps IH]; cbn [upsert List.filter].
  - by rewrite bool_decide_eq_true_2.
  - case_bool_decide as Hk; cbn [List.filter negb].
    + by rewrite bool_decide_eq_true_2.
    + rewrite bool_decide_eq_false_2 by done. cbn [negb]. by rewrite IH.
Qed.

Lemma upsert_keys plugin plugins :
  recordKey <$> upsert plugin plugins
  = if bool_decide (recordKey plugin ∈ recordKey <$> plugins)
    then recordKey <$> plugins
    else (recordKey <$> plugins) ++ [recordKey plugin].
Proof.
  induction plugins as [|p ps IH]; [done|]. cbn [upsert].
  destruct (decide (recordKey p = recordKey plugin)) as [Hk|Hk].
  - rewrite (bool_decide_eq_true_2 (recordKey p = recordKey plugin)) by done.
    rewrite bool_decide_eq_true_2.
    + rewrite !fmap_cons. by rewrite Hk.
    + rewrite fmap_cons, Hk. apply list_elem_of_here.
  - rewrite (bool_decide_eq_false_2 (recordKey p = recordKey plugin)) by done.
    rewrite !fmap_cons, IH. case_bool_decide as Hin.
    + by rewrite bool_decide_eq_true_2 by (by apply list_elem_of_further).
    + rewrite bool_decide_eq_false_2; [done|].
      intros [?|?]%elem_of_cons; congruence.
Qed.

Lemma upsert_idem plugin plugins :
  upsert plugin (upsert plugin plugins) = upsert plugin plugins.
Proof.
  induction plugins as [|p ps IH]; cbn [upsert].
  - by rewrite bool_decide_eq_true_2.
  - case_bool_decide as Hk; cbn [upsert].
    + by rewrite bool_decide_eq_true_2.
    + rewrite bool_decide_eq_false_2 by done. by rewrite IH.
Qed.

Lemma savePluginMetadata_set plugin s :
  savePluginMetadata plugin s
  = set_storedPlugins (Some (upsert plugin (getStoredPlugins s))) s.
Proof.
  pose proof (savePluginMetadata_upsert plugin s) as H.
  unfold savePluginMetadata in *. unfold getStoredPlugins at 1 in H.
  cbn [storedPlugins set_storedPlugins default from_option id] in H.
  by rewrite H.
Qed.

End MetadataFacts.

(** X11: [savePluginMetadata] is an upsert by (internalName,
    repositoryUrl): afterwards the first record found under the key of the
    saved record is the saved record, the records of all other keys are
    the same as before and in the same order, and the number of records
    grows by one exactly when the key was not stored yet. *)
Theorem savePluginMetadata_upserts (plugin : PluginMetadata) (s : State) :
  let before := PluginLoader.getStoredPlugins s in
  let after := PluginLoader.getStoredPlugins (PluginLoader.savePluginMetadata plugin s) in
  List.find (fun p => bool_decide (recordKey p = recordKey plugin)) after
  = Some plugin
  /\ List.filter (fun p => negb (bool_decide (recordKey p = recordKey plugin))) after
     = List.filter (fun p => negb (bool_decide (recordKey p = recordKey plugin))) before
  /\ length after
     = if bool_decide (recordKey plugin ∈ recordKey <$> before)
       then length before else S (length before).
Proof.
  cbv zeta. rewrite savePluginMetadata_upsert. split_and!.
  - apply upsert_lookup.
  - apply upsert_others.
  - rewrite <- (length_fmap recordKey (upsert _ _)), upsert_keys.
    case_bool_decide; rewrite ?length_app, length_fmap; cbn [length]; lia.
Qed.

(** X12: [savePluginMetadata] keeps at most one record per (internalName,
    repositoryUrl): if the stored keys are distinct they stay distinct; and
    saving the same record twice is the same as saving it once. *)
Theorem savePluginMetadata_one_record_per_key (plugin : PluginMetadata) (s : State) :
  (NoDup (recordKey <$> PluginLoader.getStoredPlugins s) ->
   NoDup (recordKey <$>
            PluginLoader.getStoredPlugins (PluginLoader.savePluginMetadata plugin s)))
  /\ PluginLoader.savePluginMetadata plugin (PluginLoader.savePluginMetadata plugin s)
     = PluginLoader.savePluginMetadata plugin s.
Proof.
  split.
  - intros Hnd. rewrite savePluginMetadata_upsert, upsert_keys.
    case_bool_decide as Hin; [done|].
    apply NoDup_app. split_and!; [done| |apply NoDup_singleton].
    by intros k Hk ->%list_elem_of_singleton.
  - rewrite (savePluginMetadata_set plugin (PluginLoader.savePluginMetadata plugin s)).
    rewrite savePluginMetadata_upsert, upsert_idem.
    by rewrite (savePluginMetadata_set plugin s).
Qed.

Section CacheFacts.
Import PluginLoader.

Lemma string_app_assoc (a b c : string) : (a +:+ b) +:+ c = a +:+ (b +:+ c).
Proof.
  induction a as [|x a IH]; [done|].
  change (String x ((a +:+ b) +:+ c) = String x (a +:+ (b +:+ c))).
  by rewrite IH.
Qed.

Lemma removePluginMetadata_stored n r s :
  getStoredPlugins (removePluginMetadata n r s)
  = List.filter (fun p => negb (bool_decide (recordKey p = (n, r))))
      (getStoredPlugins s).
Proof.
  unfold removePluginMetadata, getStoredPlugins at 1.
  cbn [storedPlugins set_items set_storedPlugins default from_option id].
  apply List.filter_ext. intros p. f_equal. unfold recordKey.
  apply bool_decide_ext. split; [intros [-> ->]; done | intros [= -> ->]; done].
Qed.

Lemma filter_absent_key (k : string * string) (plugins : list PluginMetadata) :
  k ∉ recordKey <$> plugins ->
  List.filter (fun p => negb (bool_decide (recordKey p = k))) plugins = plugins.
Proof.
  induction plugins as [|p ps IH]; [done|]. rewrite fmap_cons, not_elem_of_cons.
  intros [Hne Hin]. cbn [List.filter].
  rewrite bool_decide_eq_false_2 by congruence. cbn [negb]. f_equal. auto.
Qed.

Lemma resolveCode_frame w plugin repositoryUrl s :
  let s' := (resolveCode w plugin repositoryUrl s).2 in
  apis s' = apis s /\ storedPlugins s' = storedPlugins s
  /\ nextRef s' = nextRef s /\ isInitialized s' = isInitialized s.
Proof.
  unfold resolveCode.
  destruct (getStoredPluginCode _ _ s) as [[|c code]|];
    destruct (fetchPlugin w (sp_url plugin)) as [|[|d text]|bytes];
    try destruct (fromCharCodeSpread w bytes); done.
Qed.

(** The resolution of the code fails at the download or at the conversion
    of the downloaded buffer, nowhere else. *)
Lemma resolveCode_fails_stage w plugin repositoryUrl s st :
  (resolveCode w plugin repositoryUrl s).1 = Fails st ->
  st = download \/ st = parse.
Proof.
  unfold resolveCode.
  destruct (getStoredPluginCode _ _ s) as [[|c code]|];
    destruct (fetchPlugin w (sp_url plugin)) as [|[|d text]|bytes];
    try destruct (fromCharCodeSpread w bytes);
    cbn [fst]; intros [= <-]; auto.
Qed.

Lemma bridge_downloadPlugin_frame w plugin repositoryUrl s :
  let s' := (JVMBridge.downloadPlugin w plugin repositoryUrl s).2 in
  apis s' = apis s /\ storedPlugins s' = storedPlugins s
  /\ nextRef s' = nextRef s /\ isInitialized s' = isInitialized s.
Proof.
  unfold JVMBridge.downloadPlugin.
  destruct (_ && _); [done|].
  destruct (fetchPlugin w (sp_url plugin)) as [|[|d text]|bytes];
    destruct (electronAPI w); try destruct (ipcSavePluginFile w _ _);
    try destruct (fromCharCodeSpread w bytes);
    split_and!; reflexivity.
Qed.

Lemma bridge_loadPlugin_frame w plugin repositoryUrl s :
  let s' := (JVMBridge.loadPlugin w plugin repositoryUrl s).2 in
  apis s' = apis s /\ storedPlugins s' = storedPlugins s /\ nextRef s' = nextRef s.
Proof.
  unfold JVMBridge.loadPlugin.
  set (s0 := JVMBridge.initializeBridge s).
  assert (H0 : apis s0 = apis s /\ storedPlugins s0 = storedPlugins s
               /\ nextRef s0 = nextRef s).
  { subst s0. unfold JVMBridge.initializeBridge. by destruct (isInitialized s). }
  destruct H0 as (Ha & Hs & Hn). rewrite <- Ha, <- Hs, <- Hn.
  destruct (negb (isInitialized s0)); [done|].
  pose proof (bridge_downloadPlugin_frame w plugin repositoryUrl s0) as Hd.
  destruct (JVMBridge.downloadPlugin w plugin repositoryUrl s0) as [[path|] s1];
    cbn [snd] in Hd; destruct Hd as (Ha1 & Hs1 & Hn1 & _);
    [|by split_and!].
  destruct (rpcLoad w path _ _); by split_and!.
Qed.

End CacheFacts.

(** X13: [removePluginMetadata] leaves no record and no cached code for
    the given (internalName, repositoryUrl) and keeps every other record,
    in order; removing a record right after saving it under a key that was
    not stored gives back the records there were. *)
Theorem removePluginMetadata_removes (n r : string) (plugin : PluginMetadata)
    (s : State) :
  let after := PluginLoader.getStoredPlugins (PluginLoader.removePluginMetadata n r s) in
  ((n, r) ∉ recordKey <$> after)
  /\ PluginLoader.getStoredPluginCode n r (PluginLoader.removePluginMetadata n r s)
     = None
  /\ after
     = List.filter (fun p => negb (bool_decide (recordKey p = (n, r))))
         (PluginLoader.getStoredPlugins s)
  /\ (recordKey plugin ∉ recordKey <$> PluginLoader.getStoredPlugins s ->
      PluginLoader.getStoredPlugins
        (PluginLoader.removePluginMetadata (internalName plugin)
           (repositoryUrl plugin) (PluginLoader.savePluginMetadata plugin s))
      = PluginLoader.getStoredPlugins s).
Proof.
  cbv zeta. rewrite !removePluginMetadata_stored. split_and!.
  - intros Hin. apply list_elem_of_fmap in Hin as (p & Hk & Hp).
    apply list_elem_of_In, filter_In in Hp as [_ Hp].
    apply negb_true_iff, bool_decide_eq_false in Hp. congruence.
  - unfold PluginLoader.getStoredPluginCode, PluginLoader.removePluginMetadata.
    cbn [items set_items set_storedPlugins]. apply lookup_delete_eq.
  - done.
  - intros Hnew. rewrite savePluginMetadata_upsert.
    change (internalName plugin, repositoryUrl plugin) with (recordKey plugin).
    rewrite upsert_others. by apply filter_absent_key.
Qed.

(** X14: the storage key of cached code is not injective in
    (internalName, repositoryUrl): code stored for the internal name
    [n_m] and repository [r] is the cached code of the internal name [n]
    and repository [m_r]. *)
Theorem cached_code_key_collision (n m r : string) (code : jsstring) (s : State) :
  PluginLoader.codeKey (n +:+ "_" +:+ m) r = PluginLoader.codeKey n (m +:+ "_" +:+ r)
  /\ PluginLoader.getStoredPluginCode n (m +:+ "_" +:+ r)
       (PluginLoader.storePluginCode (n +:+ "_" +:+ m) r code s)
     = Some code.
Proof.
  assert (Hkey : PluginLoader.codeKey (n +:+ "_" +:+ m) r
                 = PluginLoader.codeKey n (m +:+ "_" +:+ r)).
  { unfold PluginLoader.codeKey. by rewrite !string_app_assoc. }
  split; [exact Hkey|].
  unfold PluginLoader.getStoredPluginCode, PluginLoader.storePluginCode.
  cbn [items set_items]. rewrite Hkey. apply lookup_insert_eq.
Qed.

(** X15: the code an install goes on with is the code the cache holds
    afterwards, and if it is not empty the next resolution of the same
    descriptor takes it from the cache without any fetch; a failed
    download, and a download that is too large to be converted, leave the
    cache as it was.  The registry and the stored metadata are not touched
    by the resolution. *)
Theorem resolveCode_caches_what_it_loads w plugin repositoryUrl s :
  match PluginLoader.resolveCode w plugin repositoryUrl s with
  | (PluginLoader.Proceeds code isBinaryFile, s') =>
      PluginLoader.getStoredPluginCode (sp_internalName plugin) repositoryUrl s'
      = Some code
      /\ (code <> [] ->
          PluginLoader.resolveCode w plugin repositoryUrl s'
          = (PluginLoader.Proceeds code (cachedFlag code), s'))
      /\ apis s' = apis s /\ storedPlugins s' = storedPlugins s
  | (PluginLoader.Fails _, s') =>
      items s' = items s /\ apis s' = apis s /\ storedPlugins s' = storedPlugins s
  end.
Proof.
  assert (Hagain : forall code s',
    PluginLoader.getStoredPluginCode (sp_internalName plugin) repositoryUrl s'
    = Some code -> code <> [] ->
    PluginLoader.resolveCode w plugin repositoryUrl s'
    = (PluginLoader.Proceeds code (cachedFlag code), s')).
  { intros code s' Hget Hne. unfold PluginLoader.resolveCode. rewrite Hget.
    by destruct code. }
  assert (Hstore : forall code,
    PluginLoader.getStoredPluginCode (sp_internalName plugin) repositoryUrl
      (PluginLoader.storePluginCode (sp_internalName plugin) repositoryUrl code
         (emit (EvDownload (sp_url plugin)) s)) = Some code).
  { intros code. unfold PluginLoader.getStoredPluginCode,
      PluginLoader.storePluginCode. cbn [items set_items emit].
    apply lookup_insert_eq. }
  unfold PluginLoader.resolveCode at 1.
  destruct (PluginLoader.getStoredPluginCode _ _ s) as [[|c code]|] eqn:Hget.
  - destruct (fetchPlugin w (sp_url plugin)) as [|[|d text]|bytes];
      try destruct (fromCharCodeSpread w bytes) as [code|];
      try done; (split_and!; [apply Hstore | intros; by apply Hagain | done | done]).
  - split_and!; [done | intros; by apply Hagain | done | done].
  - destruct (fetchPlugin w (sp_url plugin)) as [|[|d text]|bytes];
      try destruct (fromCharCodeSpread w bytes) as [code|];
      try done; (split_and!; [apply Hstore | intros; by apply Hagain | done | done]).
Qed.

(** * Further properties of install and uninstall *)

Section InstallFacts.
Import PluginLoader.

Lemma loadBinary_outcome w plugin repositoryUrl s0 s :
  ApiHolder.getApi (sp_internalName plugin) (apis s0) = None ->
  apis s = apis s0 -> storedPlugins s = storedPlugins s0 -> nextRef s = nextRef s0 ->
  Outcome plugin repositoryUrl s0
    (loadBinary w plugin repositoryUrl s).1 (loadBinary w plugin repositoryUrl s).2.
Proof.
  intros Hnone Ha Hs Hn. unfold loadBinary.
  pose proof (bridge_loadPlugin_frame w plugin repositoryUrl s) as Hb.
  destruct (JVMBridge.loadPlugin w plugin repositoryUrl s) as [[[|]|] s1];
    cbn [snd] in Hb; destruct Hb as (Ha1 & Hs1 & Hn1); cbn [fst snd newObject].
  - eapply (Installed _ _ _ {| ref := nextRef s1; name := sp_internalName plugin;
                                mainUrl := sp_url plugin |}); [done| | |].
    + cbn [ref]. congruence.
    + unfold savePluginMetadata. cbn [apis set_apis set_storedPlugins].
      by rewrite Ha1, Ha, Hn1.
    + rewrite savePluginMetadata_upsert. unfold getStoredPlugins.
      cbn [storedPlugins set_apis]. by rewrite Hs1, Hs.
  - apply Failed; [done | done | congruence | congruence].
  - apply Failed; [done | done | congruence | congruence].
Qed.

Lemma loadScript_outcome w plugin repositoryUrl code s0 s :
  ApiHolder.getApi (sp_internalName plugin) (apis s0) = None ->
  apis s = apis s0 -> storedPlugins s = storedPlugins s0 -> nextRef s = nextRef s0 ->
  Outcome plugin repositoryUrl s0
    (loadScript w plugin repositoryUrl code s).1
    (loadScript w plugin repositoryUrl code s).2.
Proof.
  intros Hnone Ha Hs Hn. unfold loadScript.
  destruct (evalPlugin w code) as [|[|hasSearch hasLoad nm murl]]; cbn [fst snd].
  - apply Failed; [done | done | exact Ha | exact Hs].
  - apply Failed; [done | done | exact Ha | exact Hs].
  - destruct (negb hasSearch || negb hasLoad); cbn [fst snd newObject].
    + apply Failed; [done | done | exact Ha | exact Hs].
    + eapply (Installed _ _ _ {| ref := nextRef s; name := nm; mainUrl := murl |});
        [done| | |].
      * cbn [ref]. congruence.
      * unfold savePluginMetadata. cbn [apis set_apis set_storedPlugins emit nextRef].
        by rewrite Ha.
      * rewrite savePluginMetadata_upsert. unfold getStoredPlugins.
        cbn [storedPlugins set_apis emit]. by rewrite Hs.
Qed.

Lemma loadPlugin_outcome w plugin repositoryUrl s :
  Outcome plugin repositoryUrl s
    (loadPlugin w plugin repositoryUrl s).1 (loadPlugin w plugin repositoryUrl s).2.
Proof.
  unfold loadPlugin.
  destruct (ApiHolder.getApi (sp_internalName plugin) (apis s)) as [existing|] eqn:Hex.
  - by eapply AlreadyLoaded.
  - pose proof (resolveCode_frame w plugin repositoryUrl s) as Hf.
    pose proof (resolveCode_fails_stage w plugin repositoryUrl s) as Hst.
    destruct (resolveCode w plugin repositoryUrl s) as [[st|code b] s1];
      cbn [fst snd] in Hf, Hst; destruct Hf as (Ha & Hs & Hn & _).
    + apply Failed; [done | | done | done].
      by destruct (Hst st eq_refl) as [-> | ->].
    + destruct (isBinary b code).
      * by apply loadBinary_outcome.
      * by apply loadScript_outcome.
Qed.

End InstallFacts.


(** X17: a successful install of a descriptor that was not registered
    stores the record of the descriptor (its url and version, the
    repository, [enabled = true]) under its key, and the plugins page
    then reports the plugin as installed. *)
Theorem successful_install_is_recorded w plugin repositoryUrl s :
  ApiHolder.getApi (sp_internalName plugin) (apis s) = None ->
  PluginLoader.success (PluginLoader.loadPlugin w plugin repositoryUrl s).1 = true ->
  let s' := (PluginLoader.loadPlugin w plugin repositoryUrl s).2 in
  List.find (fun p => bool_decide (recordKey p = (sp_internalName plugin, repositoryUrl)))
    (PluginLoader.getStoredPlugins s')
  = Some (PluginLoader.installedRecord plugin repositoryUrl)
  /\ isPluginInstalled (PluginLoader.getStoredPlugins s') (sp_internalName plugin)
     = true.
Proof.
  intros Hnone Hok. cbv zeta.
  destruct (loadPlugin_outcome w plugin repositoryUrl s)
    as [existing Hex | handle s' _ _ _ Hstored | st s' _ _ _ _];
    [congruence | | done].
  rewrite Hstored.
  pose proof (upsert_lookup (PluginLoader.installedRecord plugin repositoryUrl)
                (PluginLoader.getStoredPlugins s)) as Hfind.
  split; [exact Hfind|].
  apply find_some in Hfind as [Hin _].
  unfold isPluginInstalled. apply existsb_exists.
  exists (PluginLoader.installedRecord plugin repositoryUrl).
  split; [exact Hin|]. cbn. by rewrite bool_decide_eq_true_2.
Qed.

Lemma successful_install_is_recorded_witness :
  isPluginInstalled
    (PluginLoader.getStoredPlugins
       (PluginLoader.loadPlugin providerWorld scriptPlugin sampleRepo initial).2) "P"
  = true.
Proof.
  apply (successful_install_is_recorded providerWorld scriptPlugin sampleRepo initial).
  - reflexivity.
  - vm_compute. reflexivity.
Defined.

(** X18: install, uninstall and reinstall keep the registry free of
    duplicate names. *)
Theorem loader_keeps_names_unique w plugin repositoryUrl nm s :
  NoDup (names (apis s)) ->
  NoDup (names (apis (PluginLoader.loadPlugin w plugin repositoryUrl s).2))
  /\ NoDup (names (apis (PluginLoader.unloadPlugin nm s)))
  /\ NoDup (names (apis (PluginLoader.reloadPlugin w plugin repositoryUrl s).2)).
Proof.
  intros Hnd.
  assert (Hload : forall s0, NoDup (names (apis s0)) ->
    NoDup (names (apis (PluginLoader.loadPlugin w plugin repositoryUrl s0).2))).
  { intros s0 H0. destruct (loadPlugin_outcome w plugin repositoryUrl s0)
      as [existing Hex | handle s' _ _ Hapis _ | st s' _ _ Hapis _].
    - done.
    - rewrite Hapis. by apply addPlugin_NoDup.
    - by rewrite Hapis. }
  assert (Hunload : forall n, NoDup (names (apis (PluginLoader.unloadPlugin n s)))).
  { intros n. unfold PluginLoader.unloadPlugin.
    destruct (List.find _ _); [|done].
    destruct (ApiHolder.getApi n (apis s)); [|done].
    cbn [apis PluginLoader.savePluginMetadata set_storedPlugins set_apis].
    by apply NoDup_names_filter. }
  split_and!; [by apply Hload | apply Hunload |].
  unfold PluginLoader.reloadPlugin. apply Hload.
  cbn [apis set_items]. apply Hunload.
Qed.

Lemma loader_keeps_names_unique_witness :
  NoDup (names (apis (PluginLoader.loadPlugin providerWorld scriptPlugin sampleRepo
                        loadedState).2)).
Proof.
  apply (loader_keeps_names_unique providerWorld scriptPlugin sampleRepo "A" loadedState).
  apply NoDup_singleton.
Defined.

Section ReinstallFacts.
Import PluginLoader.

Lemma getApi_addPlugin handle apis :
  NoDup (names apis) ->
  ApiHolder.getApi (name handle) (ApiHolder.addPlugin handle apis) = Some handle.
Proof.
  intros Hnd. pose proof (addPlugin_exactly_one handle apis Hnd) as Hone.
  unfold handles_named in Hone. unfold ApiHolder.getApi.
  revert Hone. generalize (ApiHolder.addPlugin handle apis) as l.
  induction l as [|p l IH]; cbn [List.filter List.find]; [done|].
  case_bool_decide; [by intros [= -> _] | done].
Qed.

(** An install that finds nothing usable in the cache starts by fetching. *)
Lemma loadPlugin_miss_fetches w plugin repositoryUrl s :
  ApiHolder.getApi (sp_internalName plugin) (apis s) = None ->
  getStoredPluginCode (sp_internalName plugin) repositoryUrl s = None ->
  trace s ++ [EvDownload (sp_url plugin)]
  `prefix_of` trace (loadPlugin w plugin repositoryUrl s).2.
Proof.
  intros Hnone Hcode.
  assert (Hres : trace (resolveCode w plugin repositoryUrl s).2
                 = trace s ++ [EvDownload (sp_url plugin)]).
  { unfold resolveCode. rewrite Hcode.
    destruct (fetchPlugin w (sp_url plugin)) as [|[|c text]|bytes]; try done.
    by destruct (fromCharCodeSpread w bytes). }
  unfold loadPlugin. rewrite Hnone, <- Hres.
  destruct (resolveCode w plugin repositoryUrl s) as [[st|code b] s']; [reflexivity|].
  destruct (isBinary b code).
  - apply loadBinary_trace.
  - rewrite loadScript_trace. by apply prefix_app_r.
Qed.

Lemma unloadPlugin_unregisters nm s r :
  NoDup (names (apis s)) ->
  storedRecord nm s = Some r ->
  ApiHolder.getApi nm (apis (unloadPlugin nm s)) = None.
Proof.
  intros Hnd Hr. unfold unloadPlugin. unfold storedRecord in Hr. rewrite Hr.
  destruct (ApiHolder.getApi nm (apis s)) as [api|] eqn:Hapi;
    unfold savePluginMetadata; cbn [apis set_apis set_storedPlugins]; [|done].
  apply find_name_None. by eapply removePlugin_found_gone.
Qed.

Lemma unloadPlugin_frame nm s :
  items (unloadPlugin nm s) = items s
  /\ trace (unloadPlugin nm s) = trace s
  /\ nextRef (unloadPlugin nm s) = nextRef s.
Proof.
  unfold unloadPlugin. destruct (List.find _ _); [|done].
  by destruct (ApiHolder.getApi nm (apis s)).
Qed.

Lemma isBinary_flag_irrelevant code :
  isBinary (cachedFlag code) code = isBinary false code.
Proof.
  unfold cachedFlag, isBinary.
  destruct (startsWith code (js "PK")); [done|].
  by destruct (startsWith code [100; 101; 120; 10]%N).
Qed.

End ReinstallFacts.

(** X19: a compiled package that installs successfully is registered as
    a new proxy handle named by the descriptor's internal name, with the
    descriptor's url as main url; installing the same descriptor again is
    then a no-op that reports success. *)
Theorem binary_install_registers_proxy w plugin repositoryUrl s code isBinaryFile :
  NoDup (names (apis s)) ->
  ApiHolder.getApi (sp_internalName plugin) (apis s) = None ->
  (PluginLoader.resolveCode w plugin repositoryUrl s).1
  = PluginLoader.Proceeds code isBinaryFile ->
  PluginLoader.isBinary isBinaryFile code = true ->
  PluginLoader.success (PluginLoader.loadPlugin w plugin repositoryUrl s).1 = true ->
  let s' := (PluginLoader.loadPlugin w plugin repositoryUrl s).2 in
  (exists proxy,
     ApiHolder.getApi (sp_internalName plugin) (apis s') = Some proxy
     /\ name proxy = sp_internalName plugin
     /\ mainUrl proxy = sp_url plugin
     /\ ref proxy = nextRef s)
  /\ PluginLoader.loadPlugin w plugin repositoryUrl s' = (PluginLoader.succeeded, s').
Proof.
  intros Hnd Hnone Hres Hbin Hok. cbv zeta.
  assert (Hproxy : exists proxy,
     ApiHolder.getApi (sp_internalName plugin)
       (apis (PluginLoader.loadPlugin w plugin repositoryUrl s).2) = Some proxy
     /\ name proxy = sp_internalName plugin
     /\ mainUrl proxy = sp_url plugin
     /\ ref proxy = nextRef s).
  { revert Hok. unfold PluginLoader.loadPlugin. rewrite Hnone.
    pose proof (resolveCode_frame w plugin repositoryUrl s) as Hf.
    destruct (PluginLoader.resolveCode w plugin repositoryUrl s) as [r s1].
    cbn [fst snd] in Hres, Hf. subst r. rewrite Hbin.
    destruct Hf as (Ha & _ & Hn & _).
    unfold PluginLoader.loadBinary.
    pose proof (bridge_loadPlugin_frame w plugin repositoryUrl s1) as Hb.
    destruct (JVMBridge.loadPlugin w plugin repositoryUrl s1) as [[[|]|] s2];
      cbn [snd] in Hb; destruct Hb as (Ha2 & _ & Hn2);
      cbn [fst snd newObject PluginLoader.success PluginLoader.failed];
      [intros _ | done | done].
    unfold PluginLoader.savePluginMetadata.
    cbn [apis set_apis set_storedPlugins].
    exists {| ref := nextRef s2; name := sp_internalName plugin;
              mainUrl := sp_url plugin |}.
    split; [|split_and!; [reflexivity | reflexivity | cbn [ref]; congruence]].
    rewrite Ha2, Ha.
    apply (getApi_addPlugin {| ref := nextRef s2; name := sp_internalName plugin;
                               mainUrl := sp_url plugin |} (apis s) Hnd). }
  split; [exact Hproxy|].
  destruct Hproxy as (proxy & Hget & _).
  unfold PluginLoader.loadPlugin at 1. by rewrite Hget.
Qed.

Lemma binary_install_registers_proxy_witness :
  let s' := (PluginLoader.loadPlugin bridgeWorld dexPlugin sampleRepo initial).2 in
  PluginLoader.loadPlugin bridgeWorld dexPlugin sampleRepo s'
  = (PluginLoader.succeeded, s').
Proof.
  apply (binary_install_registers_proxy bridgeWorld dexPlugin sampleRepo initial
           (fromCharCode (String.list_byte_of_string "PK-archive")) true).
  - apply NoDup_nil_2.
  - reflexivity.
  - vm_compute. reflexivity.
  - reflexivity.
  - vm_compute. reflexivity.
Defined.

(** X20: code that was downloaded as text is classified in the same way
    when it is later taken from the cache: the flag computed for cached
    code never changes what [isBinary] answers for unflagged code. *)
Theorem text_download_classified_alike (code : jsstring) :
  PluginLoader.isBinary (cachedFlag code) code = PluginLoader.isBinary false code
  /\ classify (cachedFlag code) code = classify false code.
Proof.
  unfold classify. by rewrite isBinary_flag_irrelevant.
Qed.

(** X21: reinstalling fetches the package again: in a registry without
    duplicate names, for a plugin that has a stored record (or is not
    registered), [reloadPlugin] first uninstalls without any outside call
    and then starts the install with a download from the descriptor's
    url. *)
Theorem reloadPlugin_fetches_again w plugin repositoryUrl s :
  NoDup (names (apis s)) ->
  (storedRecord (sp_internalName plugin) s <> None
   \/ ApiHolder.getApi (sp_internalName plugin) (apis s) = None) ->
  trace s ++ [EvDownload (sp_url plugin)]
  `prefix_of` trace (PluginLoader.reloadPlugin w plugin repositoryUrl s).2.
Proof.
  intros Hnd Hcase. unfold PluginLoader.reloadPlugin.
  set (s1 := PluginLoader.unloadPlugin (sp_internalName plugin) s).
  set (s2 := set_items _ s1).
  destruct (unloadPlugin_frame (sp_internalName plugin) s) as (_ & Htrace & _).
  assert (Hnone : ApiHolder.getApi (sp_internalName plugin) (apis s2) = None).
  { subst s2. cbn [apis set_items]. subst s1.
    destruct (storedRecord (sp_internalName plugin) s) as [r|] eqn:Hr.
    - by eapply unloadPlugin_unregisters.
    - destruct Hcase as [?|Hnone]; [done|].
      unfold PluginLoader.unloadPlugin. unfold storedRecord in Hr. by rewrite Hr. }
  assert (Hcode : PluginLoader.getStoredPluginCode (sp_internalName plugin)
                    repositoryUrl s2 = None).
  { subst s2. unfold PluginLoader.getStoredPluginCode. cbn [items set_items].
    apply lookup_delete_eq. }
  replace (trace s) with (trace s2) by (subst s2 s1; cbn [trace set_items]; exact Htrace).
  by apply loadPlugin_miss_fetches.
Qed.

Lemma reloadPlugin_fetches_again_witness :
  [EvDownload (sp_url scriptPlugin); EvExecute providerCode;
   EvDownload (sp_url scriptPlugin)]
  `prefix_of`
  trace (PluginLoader.reloadPlugin providerWorld scriptPlugin sampleRepo
           (PluginLoader.loadPlugin providerWorld scriptPlugin sampleRepo initial).2).2.
Proof.
  apply (reloadPlugin_fetches_again providerWorld scriptPlugin sampleRepo
           (PluginLoader.loadPlugin providerWorld scriptPlugin sampleRepo initial).2).
  - apply NoDup_singleton.
  - left. vm_compute. discriminate.
Defined.

(** X22: uninstalling a plugin that has a stored record, in a registry
    without duplicate names, leaves no handle under its name, makes no
    outside call and keeps the cached code; and when the name has a
    single record the plugins page no longer reports it as installed. *)
Theorem unloadPlugin_unregisters_handle nm s r :
  NoDup (names (apis s)) ->
  storedRecord nm s = Some r ->
  let s' := PluginLoader.unloadPlugin nm s in
  ApiHolder.getApi nm (apis s') = None
  /\ trace s' = trace s
  /\ items s' = items s
  /\ (recordsNamed nm s = [r] ->
      isPluginInstalled (PluginLoader.getStoredPlugins s') nm = false).
Proof.
  intros Hnd Hr. cbv zeta.
  destruct (unloadPlugin_frame nm s) as (Hitems & Htrace & _).
  split_and!; [by eapply unloadPlugin_unregisters | exact Htrace | exact Hitems |].
  intros Honly.
  assert (Hstored : PluginLoader.getStoredPlugins (PluginLoader.unloadPlugin nm s)
                    = disableFirst nm (PluginLoader.getStoredPlugins s)).
  { unfold PluginLoader.getStoredPlugins at 1.
    by rewrite (unloadPlugin_stored nm s r Hr). }
  pose proof (named_disableFirst nm (PluginLoader.getStoredPlugins s) r Honly) as Hnamed.
  rewrite <- Hstored in Hnamed. unfold isPluginInstalled.
  revert Hnamed. generalize (PluginLoader.getStoredPlugins (PluginLoader.unloadPlugin nm s)) as l.
  intros l Hl.
  apply not_true_is_false. intros Hex. apply existsb_exists in Hex as (p & Hp & Hb).
  apply andb_true_iff in Hb as [Hn He].
  assert (Hin : In p (List.filter (fun p => bool_decide (internalName p = nm)) l)).
  { apply filter_In. by split. }
  rewrite Hl in Hin. destruct Hin as [<-|[]]. done.
Qed.

Lemma unloadPlugin_unregisters_handle_witness :
  let s := (PluginLoader.loadPlugin bridgeWorld dexPlugin sampleRepo initial).2 in
  ApiHolder.getApi "Dex" (apis (PluginLoader.unloadPlugin "Dex" s)) = None
  /\ isPluginInstalled
       (PluginLoader.getStoredPlugins (PluginLoader.unloadPlugin "Dex" s)) "Dex"
     = false.
Proof.
  cbv zeta.
  destruct (unloadPlugin_unregisters_handle "Dex"
    (PluginLoader.loadPlugin bridgeWorld dexPlugin sampleRepo initial).2
    (PluginLoader.installedRecord dexPlugin sampleRepo)) as (Hget & _ & _ & Hpage).
  - vm_compute. apply NoDup_singleton.
  - vm_compute. reflexivity.
  - split; [exact Hget|]. apply Hpage. vm_compute. reflexivity.
Defined.

(** * Further properties of the JVM bridge *)

Section BridgeFacts.

Lemma string_app_nil_r (a : string) : a +:+ "" = a.
Proof.
  induction a as [|x a IH]; [done|].
  change (String x (a +:+ "") = String x a). by rewrite IH.
Qed.

Lemma string_app_neq (a b : string) : b <> "" -> a +:+ b <> a.
Proof.
  intros Hb Heq. apply Hb.
  rewrite <- (string_app_nil_r a) in Heq at 2.
  by apply (inj (String.app a)) in Heq.
Qed.

(** The events of a bridge download: no health probe among them. *)
Lemma bridge_downloadPlugin_events w plugin repositoryUrl s :
  exists new,
    trace (JVMBridge.downloadPlugin w plugin repositoryUrl s).2 = trace s ++ new
    /\ List.filter isHealth new = [].
Proof.
  unfold JVMBridge.downloadPlugin.
  destruct (_ && _); [exists []; by rewrite app_nil_r|].
  destruct (fetchPlugin w (sp_url plugin)) as [|[|d text]|bytes];
    destruct (electronAPI w); try destruct (ipcSavePluginFile w _ _);
    try destruct (fromCharCodeSpread w bytes);
    cbn [snd trace emit set_items]; rewrite <- ?app_assoc;
    eexists; (split; [reflexivity | reflexivity]).
Qed.

Lemma bridge_loadPlugin_events w plugin repositoryUrl s :
  exists new,
    trace (JVMBridge.loadPlugin w plugin repositoryUrl s).2
    = trace (JVMBridge.initializeBridge s) ++ new
    /\ List.filter isHealth new = [].
Proof.
  unfold JVMBridge.loadPlugin.
  destruct (negb _); [exists []; by rewrite app_nil_r|].
  destruct (bridge_downloadPlugin_events w plugin repositoryUrl
              (JVMBridge.initializeBridge s)) as (new & Hnew & Hh).
  destruct (JVMBridge.downloadPlugin w plugin repositoryUrl _) as [[path|] s1];
    cbn [snd] in Hnew; [|by exists new].
  exists (new ++ [EvRpcLoad path (sp_internalName plugin) repositoryUrl]).
  split.
  - destruct (rpcLoad w path _ _); cbn [snd trace emit]; by rewrite Hnew, app_assoc.
  - by rewrite List.filter_app, Hh.
Qed.

End BridgeFacts.

(** X23: the bridge probes the sidecar's health at most once: a call of
    its [loadPlugin] leaves the bridge initialised, sends one GET /health
    if the bridge was not initialised before, and none if it was. *)
Theorem bridge_health_probed_once w plugin repositoryUrl s :
  let s' := (JVMBridge.loadPlugin w plugin repositoryUrl s).2 in
  isInitialized s' = true
  /\ length (List.filter isHealth (trace s'))
     = length (List.filter isHealth (trace s))
       + (if isInitialized s then 0 else 1).
Proof.
  cbv zeta. split.
  - unfold JVMBridge.loadPlugin.
    assert (H0 : isInitialized (JVMBridge.initializeBridge s) = true).
    { unfold JVMBridge.initializeBridge. by destruct (isInitialized s) eqn:Hi. }
    rewrite H0. cbn [negb].
    pose proof (bridge_downloadPlugin_frame w plugin repositoryUrl
                  (JVMBridge.initializeBridge s)) as Hf.
    destruct (JVMBridge.downloadPlugin w plugin repositoryUrl _) as [[path|] s1];
      cbn [snd] in Hf; destruct Hf as (_ & _ & _ & Hi); [|cbn [snd]; congruence].
    destruct (rpcLoad w path _ _); cbn [snd isInitialized emit]; congruence.
  - destruct (bridge_loadPlugin_events w plugin repositoryUrl s) as (new & -> & Hh).
    rewrite List.filter_app, Hh, app_nil_r.
    unfold JVMBridge.initializeBridge. destruct (isInitialized s); [lia|].
    cbn [trace set_isInitialized emit]. rewrite List.filter_app, length_app.
    by cbn.
Qed.

(** X24: without the Electron API the bridge never finds the package on
    disk: every call of its [downloadPlugin] fetches the descriptor's url,
    and what it fetched is kept in [localStorage] under the plugin key
    (base64 for an [ArrayBuffer], the text itself otherwise) with the type
    marker next to it.  A failed or empty download stores nothing, and
    neither does an [ArrayBuffer] of more bytes than a call accepts
    arguments: the conversion throws and the call rejects. *)
Theorem bridge_fallback_storage w plugin repositoryUrl s :
  electronAPI w = false ->
  let key := JVMBridge.getPluginKey plugin repositoryUrl in
  let res := JVMBridge.downloadPlugin w plugin repositoryUrl s in
  trace res.2 = trace s ++ [EvDownload (sp_url plugin)]
  /\ match fetchPlugin w (sp_url plugin) with
     | DlBinary bytes =>
         if (N.of_nat (length bytes) <=? argumentLimit w)%N
         then res.1 = JVMBridge.Resolved key
              /\ items res.2 !! key = Some (btoa (fromCharCode bytes))
              /\ items res.2 !! (key +:+ "_type") = Some (js "binary")
         else res.1 = JVMBridge.Rejected /\ items res.2 = items s
     | DlText (c :: text) =>
         res.1 = JVMBridge.Resolved key
         /\ items res.2 !! key = Some (c :: text)
         /\ items res.2 !! (key +:+ "_type") = Some (js "text")
     | _ => res.1 = JVMBridge.Rejected /\ items res.2 = items s
     end.
Proof.
  intros He. cbv zeta. unfold JVMBridge.downloadPlugin, JVMBridge.getPluginPath,
    JVMBridge.pluginFileExists. rewrite He. cbn [JVMBridge.truthy andb].
  assert (Hkey : JVMBridge.getPluginKey plugin repositoryUrl +:+ "_type"
                 <> JVMBridge.getPluginKey plugin repositoryUrl)
    by (by apply string_app_neq).
  destruct (fetchPlugin w (sp_url plugin)) as [|[|d text]|bytes];
    [| | |unfold fromCharCodeSpread;
          destruct (N.of_nat (length bytes) <=? argumentLimit w)%N];
    cbn [fst snd trace items emit set_items]; (split; [reflexivity|]);
    try done.
  - split_and!; [done | | apply lookup_insert_eq].
    rewrite lookup_insert_ne by done. apply lookup_insert_eq.
  - split_and!; [done | | apply lookup_insert_eq].
    rewrite lookup_insert_ne by done. apply lookup_insert_eq.
Qed.

Lemma bridge_fallback_storage_witness :
  items (JVMBridge.downloadPlugin textWorld scriptPlugin sampleRepo initial).2
    !! JVMBridge.getPluginKey scriptPlugin sampleRepo
  = Some scriptCode.
Proof.
  pose proof (bridge_fallback_storage textWorld scriptPlugin sampleRepo initial
                eq_refl) as [_ H].
  cbv zeta in H. change (fetchPlugin textWorld (sp_url scriptPlugin))
    with (DlText scriptCode) in H.
  change scriptCode with (109%N :: List.tl scriptCode) in H at 1.
  cbn [List.tl] in H. destruct H as (_ & H & _). exact H.
Defined.

(** X25: installing a compiled package that is neither cached by the
    loader nor on disk for the bridge fetches the descriptor's url twice,
    once by the loader and once more by the bridge, when the package has
    no more bytes than a call accepts arguments.  A larger package is
    fetched once: the loader's conversion throws, the install ends at
    stage parse and nothing is cached. *)
Theorem binary_install_fetches_twice w plugin repositoryUrl s bytes :
  ApiHolder.getApi (sp_internalName plugin) (apis s) = None ->
  PluginLoader.getStoredPluginCode (sp_internalName plugin) repositoryUrl s = None ->
  fetchPlugin w (sp_url plugin) = DlBinary bytes ->
  JVMBridge.pluginFileExists w (sp_internalName plugin) repositoryUrl = false ->
  let res := PluginLoader.loadPlugin w plugin repositoryUrl s in
  if (N.of_nat (length bytes) <=? argumentLimit w)%N
  then length (List.filter (isDownloadOf (sp_url plugin)) (trace res.2))
       = length (List.filter (isDownloadOf (sp_url plugin)) (trace s)) + 2
  else res.1 = PluginLoader.failed PluginLoader.parse
       /\ trace res.2 = trace s ++ [EvDownload (sp_url plugin)]
       /\ items res.2 = items s.
Proof.
  intros Hnone Hcode Hfetch Hdisk. cbv zeta.
  unfold PluginLoader.loadPlugin, PluginLoader.resolveCode.
  rewrite Hnone, Hcode, Hfetch. unfold fromCharCodeSpread.
  destruct (N.of_nat (length bytes) <=? argumentLimit w)%N eqn:Hfits;
    [|by split_and!].
  cbn [PluginLoader.isBinary].
  unfold PluginLoader.loadBinary, JVMBridge.loadPlugin, JVMBridge.downloadPlugin.
  assert (Hself : isDownloadOf (sp_url plugin) (EvDownload (sp_url plugin)) = true)
    by (cbn; by rewrite bool_decide_eq_true_2).
  set (s1 := PluginLoader.storePluginCode _ _ _ _).
  assert (Hinit : isInitialized (JVMBridge.initializeBridge s1) = true).
  { unfold JVMBridge.initializeBridge. by destruct (isInitialized s1) eqn:Hi. }
  rewrite Hinit, Hdisk, andb_false_r, Hfetch. cbn [negb].
  unfold fromCharCodeSpread. rewrite Hfits.
  assert (H1 : length (List.filter (isDownloadOf (sp_url plugin))
                         (trace (JVMBridge.initializeBridge s1)))
               = length (List.filter (isDownloadOf (sp_url plugin)) (trace s)) + 1).
  { clear Hinit. unfold JVMBridge.initializeBridge.
    destruct (isInitialized s1); subst s1; unfold PluginLoader.storePluginCode;
      cbn [trace emit set_items set_isInitialized];
      rewrite !List.filter_app, !length_app; cbn [List.filter];
      rewrite ?Hself; cbn [length isDownloadOf]; lia. }
  destruct (electronAPI w); [destruct (ipcSavePluginFile w _ _) as [path|]|];
    cbn [fst snd]; try destruct (rpcLoad w _ _ _) as [| |[|]];
    cbn [fst snd newObject trace emit set_items set_apis
         PluginLoader.savePluginMetadata set_storedPlugins];
    rewrite ?List.filter_app, ?length_app; cbn [List.filter];
    rewrite ?Hself; cbn [length isDownloadOf]; lia.
Qed.

Lemma binary_install_fetches_twice_witness :
  length (List.filter (isDownloadOf (sp_url dexPlugin))
            (trace (PluginLoader.loadPlugin bridgeWorld dexPlugin sampleRepo initial).2))
  = 2
  /\ (PluginLoader.loadPlugin bulkWorld dexPlugin sampleRepo initial).1
     = PluginLoader.failed PluginLoader.parse
  /\ trace (PluginLoader.loadPlugin bulkWorld dexPlugin sampleRepo initial).2
     = [EvDownload (sp_url dexPlugin)].
Proof.
  split.
  - apply (binary_install_fetches_twice bridgeWorld dexPlugin sampleRepo initial
             (String.list_byte_of_string "PK-archive")); reflexivity.
  - pose proof (binary_install_fetches_twice bulkWorld dexPlugin sampleRepo initial
                  bigArchive eq_refl eq_refl eq_refl eq_refl) as H.
    cbv zeta in H.
    assert (Hbig : (N.of_nat (length bigArchive) <=? argumentLimit bulkWorld)%N
                   = false) by (vm_compute; reflexivity).
    rewrite Hbig in H. destruct H as (Hres & Htrace & _).
    split; [exact Hres | exact Htrace].
Defined.

Section RepositoryFacts.

Import RepositoryService.

Lemma findIndex_lt {A} (p : A -> bool) l i :
  findIndex p l = Some i -> i < length l.
Proof.
  revert i. induction l as [|x l IH]; intros i; cbn [findIndex length].
  - discriminate.
  - destruct (p x).
    + intros [= <-]. lia.
    + destruct (findIndex p l) as [j|]; cbn; [|discriminate].
      intros [= <-]. specialize (IH j eq_refl). lia.
Qed.

Lemma findIndex_app {A} (p : A -> bool) pre l :
  findIndex p (pre ++ l)
  = match findIndex p pre with
    | Some i => Some i
    | None => (fun i => length pre + i) <$> findIndex p l
    end.
Proof.
  induction pre as [|x pre IH]; cbn [app findIndex length].
  - by destruct (findIndex p l).
  - destruct (p x); [done|]. rewrite IH.
    destruct (findIndex p pre); [done|]. by destruct (findIndex p l).
Qed.

Lemma findIndex_None {A} (p : A -> bool) l :
  findIndex p l = None <-> Forall (fun x => p x = false) l.
Proof.
  induction l as [|x l IH]; cbn [findIndex].
  - split; [constructor|done].
  - destruct (p x) eqn:Hp.
    + split; [done|]. intros H. inversion H; congruence.
    + destruct (findIndex p l) eqn:Hf; cbn.
      * split; [done|]. intros H. inversion H as [|?? _ Hl]; subst.
        apply IH in Hl. discriminate.
      * split; [|done]. intros _. constructor; [done|]. by apply IH.
Qed.

Lemma firstPer_ext {A} (key : A -> string) seen seen' l :
  (forall u, u ∈ seen <-> u ∈ seen') ->
  firstPer key seen l = firstPer key seen' l.
Proof.
  revert seen seen'. induction l as [|x l IH]; intros seen seen' H; [done|].
  cbn [firstPer].
  destruct (decide (key x ∈ seen)) as [Hin|Hin].
  - rewrite (bool_decide_eq_true_2 _ Hin).
    rewrite (bool_decide_eq_true_2 _ (proj1 (H _) Hin)). by apply IH.
  - rewrite (bool_decide_eq_false_2 _ Hin).
    rewrite (bool_decide_eq_false_2 (key x ∈ seen'))
      by (intros Hin'; by apply Hin, H).
    f_equal. apply IH. intros u. rewrite !elem_of_cons, H. done.
Qed.

Lemma firstPer_fmap {A B} (f : A -> B) (key : B -> string) seen l :
  f <$> firstPer (fun x => key (f x)) seen l = firstPer key seen (f <$> l).
Proof.
  revert seen. induction l as [|x l IH]; intros seen; [done|].
  cbn [firstPer fmap list_fmap]. case_bool_decide; cbn [fmap list_fmap].
  - apply IH.
  - f_equal. apply IH.
Qed.

(** The filter of [getRepoPlugins] keeps an item when no earlier item has
    its URL. *)
Lemma filterFrom_firstPer pre l :
  filterFrom
    (fun item index =>
       bool_decide (Some index = findIndex (sameUrl item) (pre ++ l)))
    (length pre) l
  = firstPer itemUrl (itemUrl <$> pre) l.
Proof.
  revert pre. induction l as [|x l IH]; intros pre; [done|].
  cbn [filterFrom firstPer].
  specialize (IH (pre ++ [x])).
  rewrite <- app_assoc, length_app, fmap_app in IH.
  cbn [app length fmap list_fmap] in IH.
  replace (length pre + 1) with (S (length pre)) in IH by lia.
  rewrite findIndex_app. cbn [findIndex].
  assert (Hx : sameUrl x x = true)
    by (unfold sameUrl; by apply bool_decide_eq_true_2).
  rewrite Hx. cbn [fmap option_fmap option_map].
  destruct (findIndex (sameUrl x) pre) as [i|] eqn:Hf.
  - apply findIndex_lt in Hf as Hlt.
    assert (Hin : itemUrl x ∈ itemUrl <$> pre).
    { destruct (decide (itemUrl x ∈ itemUrl <$> pre)) as [|Hn]; [done|].
      assert (findIndex (sameUrl x) pre = None); [|congruence].
      apply findIndex_None, Forall_forall. intros t Ht.
      unfold sameUrl. apply bool_decide_eq_false_2. intros E.
      apply Hn, list_elem_of_fmap. by exists t. }
    rewrite bool_decide_eq_false_2 by (intros [= E]; lia).
    rewrite bool_decide_eq_true_2 by done.
    rewrite IH. apply firstPer_ext. intros u.
    rewrite elem_of_app, list_elem_of_singleton.
    split; [by intros [?| ->]|by left].
  - assert (Hin : itemUrl x ∉ itemUrl <$> pre).
    { intros (t & E & Ht)%list_elem_of_fmap.
      apply findIndex_None in Hf. rewrite Forall_forall in Hf.
      specialize (Hf t Ht). unfold sameUrl in Hf.
      apply bool_decide_eq_false_1 in Hf. by apply Hf. }
    rewrite bool_decide_eq_true_2 by (f_equal; lia).
    rewrite bool_decide_eq_false_2 by done. f_equal.
    rewrite IH. apply firstPer_ext. intros u.
    rewrite elem_of_app, list_elem_of_singleton, elem_of_cons. tauto.
Qed.

Lemma uniquePlugins_firstPer allPlugins :
  uniquePlugins allPlugins = firstPer itemUrl [] allPlugins.
Proof. apply (filterFrom_firstPer [] allPlugins). Qed.

Lemma firstPer_keys {A} (key : A -> string) seen l :
  NoDup (key <$> firstPer key seen l)
  /\ (forall u, u ∈ key <$> firstPer key seen l
                <-> u ∈ key <$> l /\ u ∉ seen).
Proof.
  revert seen. induction l as [|x l IH]; intros seen.
  - cbn. split; [constructor|]. intros u. rewrite elem_of_nil. tauto.
  - cbn [firstPer fmap list_fmap]. case_bool_decide as Hin.
    + destruct (IH seen) as [Hnd Hiff]. split; [done|]. intros u.
      rewrite Hiff, elem_of_cons. split; [tauto|].
      intros [[->|?] ?]; done.
    + destruct (IH (key x :: seen)) as [Hnd Hiff]. cbn [fmap list_fmap].
      split.
      * constructor; [|done]. rewrite Hiff, elem_of_cons. tauto.
      * intros u. rewrite !elem_of_cons, Hiff, elem_of_cons.
        destruct (decide (u = key x)) as [->|]; tauto.
Qed.

Lemma firstPer_sublist {A} (key : A -> string) seen l :
  firstPer key seen l `sublist_of` l.
Proof.
  revert seen. induction l as [|x l IH]; intros seen; [done|].
  cbn [firstPer]. case_bool_decide.
  - by apply sublist_cons.
  - by apply sublist_skip.
Qed.

Lemma firstPer_find {A} (key : A -> string) seen l u :
  u ∉ seen ->
  List.find (fun x => bool_decide (key x = u)) (firstPer key seen l)
  = List.find (fun x => bool_decide (key x = u)) l.
Proof.
  revert seen. induction l as [|x l IH]; intros seen Hu; [done|].
  cbn [firstPer List.find]. case_bool_decide as Hin.
  - rewrite bool_decide_eq_false_2 by (intros E; apply Hu; by rewrite <- E).
    by apply IH.
  - cbn [List.find]. case_bool_decide as Hk; [done|].
    apply IH. rewrite elem_of_cons. intros [E|?]; [by apply Hk|by apply Hu].
Qed.

Lemma firstPer_fixed {A} (key : A -> string) seen l :
  NoDup (key <$> l) -> (forall u, u ∈ key <$> l -> u ∉ seen) ->
  firstPer key seen l = l.
Proof.
  revert seen. induction l as [|x l IH]; intros seen Hnd Hdis; [done|].
  cbn [fmap list_fmap] in Hnd, Hdis. apply NoDup_cons in Hnd as [Hx Hnd].
  cbn [firstPer].
  rewrite bool_decide_eq_false_2 by (apply Hdis, elem_of_cons; by left).
  f_equal. apply IH; [done|]. intros u Hu. rewrite elem_of_cons.
  intros [->|Hs]; [done|]. revert Hs. apply Hdis, elem_of_cons. by right.
Qed.

End RepositoryFacts.

(** X26: the duplicate filter of getRepoPlugins keeps, for every plugin URL,
    exactly the first item that carries it: the URLs of the result are
    pairwise distinct, the result is a subsequence of the input, looking a
    URL up in the result finds the item that the same look-up finds in the
    input, and filtering a second time changes nothing. *)
Theorem uniquePlugins_keeps_first_per_url
    (allPlugins : list RepositoryService.Item) :
  let unique := RepositoryService.uniquePlugins allPlugins in
  NoDup (itemUrl <$> unique)
  /\ unique `sublist_of` allPlugins
  /\ (forall u, List.find (hasUrl u) unique = List.find (hasUrl u) allPlugins)
  /\ RepositoryService.uniquePlugins unique = unique.
Proof.
  cbn zeta. rewrite !uniquePlugins_firstPer.
  destruct (firstPer_keys itemUrl [] allPlugins) as [Hnd Hiff].
  split; [done|]. split; [apply firstPer_sublist|]. split.
  - intros u. apply (firstPer_find itemUrl [] allPlugins u). apply not_elem_of_nil.
  - apply firstPer_fixed; [done|]. intros u _. apply not_elem_of_nil.
Qed.

Section GithubUrlFacts.

Import RepositoryService.

Lemma span_spec class s :
  let (run, rest) := span class s in
  s = run ++ rest /\ Forall (fun c => class c = true) run
  /\ (forall c rest', rest = c :: rest' -> class c = false).
Proof.
  induction s as [|c s IH]; cbn [span].
  - split; [done|]. split; [constructor|]. intros ?? [=].
  - destruct (class c) eqn:Hc.
    + destruct (span class s) as [run rest]. destruct IH as (-> & Hrun & Hrest).
      split; [done|]. split; [by constructor|done].
    + split; [done|]. split; [constructor|]. by intros ?? [= <- <-].
Qed.

Lemma span_app class run rest :
  Forall (fun c => class c = true) run ->
  (forall c rest', rest = c :: rest' -> class c = false) ->
  span class (run ++ rest) = (run, rest).
Proof.
  intros Hrun Hrest. induction Hrun as [|c run Hc _ IH]; cbn [app].
  - destruct rest as [|c rest']; [done|]. cbn [span].
    by rewrite (Hrest c rest' eq_refl).
  - cbn [span]. by rewrite Hc, IH.
Qed.

Lemma startsWith_app p rest : startsWith (p ++ rest) p = true.
Proof.
  induction p as [|c p IH]; [by destruct rest|]. cbn [app startsWith].
  by rewrite N.eqb_refl, IH.
Qed.

Lemma startsWith_split text p :
  startsWith text p = true -> text = p ++ drop (length p) text.
Proof.
  revert text. induction p as [|c p IH]; intros text; [done|].
  destruct text as [|d text]; cbn [startsWith]; [done|].
  intros [->%N.eqb_eq H]%andb_true_iff. cbn [length drop app]. f_equal.
  by apply IH.
Qed.

Lemma afterSlash_Some s rest :
  afterSlash s = Some rest <-> s = slash :: rest.
Proof.
  destruct s as [|c s]; cbn [afterSlash]; [done|].
  destruct (c =? slash)%N eqn:Hc.
  - apply N.eqb_eq in Hc as ->. split; by intros [= ->].
  - apply N.eqb_neq in Hc. split; [done|]. intros [= -> _]. done.
Qed.

Lemma nonEmpty_true s : nonEmpty s = true <-> s <> [].
Proof. by destruct s. Qed.

Lemma forallb_path path :
  forallb (fun c => negb (lineTerminator c)) path = true
  <-> Forall (fun c => lineTerminator c = false) path.
Proof.
  rewrite forallb_forall, Forall_forall. split; intros H c Hc.
  - apply negb_true_iff, H. by apply list_elem_of_In.
  - apply negb_true_iff, H. by apply list_elem_of_In.
Qed.

(** The matcher accepts exactly the URLs of the form the regular expression
    describes, with the groups it describes. *)
Lemma githubRegex_Some url owner repo path :
  githubRegex url = Some (owner, repo, path)
  <-> url = githubUrl owner repo path /\ githubForm owner repo path.
Proof.
  unfold githubRegex, githubUrl, githubForm. split.
  - destruct (startsWith url githubHost) eqn:Hs; [|done].
    apply startsWith_split in Hs. revert Hs.
    generalize (drop (length githubHost) url) as tail. intros tail ->.
    pose proof (span_spec ownerChar tail) as H1.
    destruct (span ownerChar tail) as [o rest1].
    destruct H1 as (-> & Ho & _).
    destruct (nonEmpty o) eqn:Hne; [|done]. apply nonEmpty_true in Hne.
    destruct (afterSlash rest1) as [rest2|] eqn:Ha; [|done].
    apply afterSlash_Some in Ha as ->.
    pose proof (span_spec repoChar rest2) as H2.
    destruct (span repoChar rest2) as [r rest3].
    destruct H2 as (-> & Hr & _).
    destruct (nonEmpty r) eqn:Hner; [|done]. apply nonEmpty_true in Hner.
    destruct (afterSlash rest3) as [p|] eqn:Ha3; [|done].
    apply afterSlash_Some in Ha3 as ->.
    destruct (forallb _ p) eqn:Hp; [|done]. apply forallb_path in Hp.
    intros [= <- <- <-]. done.
  - intros (-> & Ho1 & Ho & Hr1 & Hr & Hp).
    rewrite startsWith_app, drop_app_length.
    rewrite (span_app ownerChar owner); [|done|by intros ?? [= <- _]].
    apply nonEmpty_true in Ho1 as ->. cbn [app afterSlash].
    rewrite N.eqb_refl.
    rewrite (span_app repoChar repo); [|done|by intros ?? [= <- _]].
    apply nonEmpty_true in Hr1 as ->. cbn [app afterSlash].
    rewrite N.eqb_refl. apply forallb_path in Hp as ->. done.
Qed.

Lemma githubRegex_rawHost rest : githubRegex (rawHost ++ rest) = None.
Proof. reflexivity. Qed.

Lemma convertRawGitUrl_unmatched url :
  githubRegex url = None -> convertRawGitUrl url = url.
Proof.
  unfold convertRawGitUrl. intros ->. by destruct (includes _ _).
Qed.

Lemma convertRawGitUrl_idem url :
  convertRawGitUrl (convertRawGitUrl url) = convertRawGitUrl url.
Proof.
  destruct (githubRegex url) as [[[o r] p]|] eqn:Hm.
  - unfold convertRawGitUrl at 2 3. rewrite Hm.
    apply convertRawGitUrl_unmatched, githubRegex_rawHost.
  - by rewrite !(convertRawGitUrl_unmatched url Hm).
Qed.

End GithubUrlFacts.

(** X27: convertRawGitUrl replaces the host of a URL
    https://github.com/OWNER/REPO/PATH (OWNER of letters, digits and '-',
    REPO of letters, digits, '_', '.' and '-', both not empty, PATH without
    a line terminator) by raw.githubusercontent.com and keeps the rest;
    every other URL is returned as it is; converting twice is the same as
    converting once. *)
Theorem convertRawGitUrl_swaps_host_only (url : jsstring) :
  (forall owner repo path,
     githubForm owner repo path ->
     RepositoryService.convertRawGitUrl (githubUrl owner repo path)
     = rawUrl owner repo path)
  /\ ((forall owner repo path,
         githubForm owner repo path -> url <> githubUrl owner repo path) ->
      RepositoryService.convertRawGitUrl url = url)
  /\ RepositoryService.convertRawGitUrl
       (RepositoryService.convertRawGitUrl url)
     = RepositoryService.convertRawGitUrl url.
Proof.
  split; [|split].
  - intros owner repo path Hform.
    unfold RepositoryService.convertRawGitUrl.
    by rewrite (proj2 (githubRegex_Some _ owner repo path) (conj eq_refl Hform)).
  - intros Hnone. apply convertRawGitUrl_unmatched.
    destruct (RepositoryService.githubRegex url) as [[[o r] p]|] eqn:Hm; [|done].
    apply githubRegex_Some in Hm as [-> Hform]. by destruct (Hnone o r p).
  - apply convertRawGitUrl_idem.
Qed.

Section RepoPluginsFacts.

Import RepositoryService.

Lemma fmap_mjoin {A B} (f : A -> B) (ls : list (list A)) :
  f <$> mjoin ls = mjoin ((fmap f) <$> ls).
Proof.
  induction ls as [|l ls IH]; [done|].
  cbn [mjoin list_join fmap list_fmap]. rewrite fmap_app. f_equal. apply IH.
Qed.

(** The plugins of the items that [getRepoPlugins] collects, before the
    duplicates are removed. *)
Lemma collected_plugins net repositoryUrl repo :
  item_plugin
    <$> mjoin ((fun pluginListUrl =>
                  (fun plugin => {| item_repositoryUrl := repositoryUrl;
                                    item_plugin := plugin |})
                    <$> parsePlugins net pluginListUrl) <$> pluginLists repo)
  = listedPlugins net repo.
Proof.
  unfold listedPlugins. rewrite fmap_mjoin, <- list_fmap_compose. f_equal.
  apply list_fmap_ext. intros _ l _. cbn.
  rewrite <- list_fmap_compose. apply list_fmap_id.
Qed.

Lemma collected_tags net repositoryUrl (lists : list jsstring) :
  Forall (fun item => item_repositoryUrl item = repositoryUrl)
    (mjoin ((fun pluginListUrl =>
               (fun plugin => {| item_repositoryUrl := repositoryUrl;
                                 item_plugin := plugin |})
                 <$> parsePlugins net pluginListUrl) <$> lists)).
Proof.
  induction lists as [|l lists IH]; [constructor|].
  cbn [fmap list_fmap mjoin list_join]. apply Forall_app. split; [|done].
  apply Forall_fmap, Forall_forall. done.
Qed.

Lemma getRepoPlugins_plugins net repositoryUrl :
  (fmap item_plugin) <$> getRepoPlugins net repositoryUrl
  = (fun repo => firstPer sp_url [] (listedPlugins net repo))
      <$> parseRepository net repositoryUrl.
Proof.
  unfold getRepoPlugins.
  destruct (parseRepository net repositoryUrl) as [repo|]; [|done].
  cbn [fmap option_fmap option_map]. f_equal.
  rewrite uniquePlugins_firstPer.
  rewrite (firstPer_fmap item_plugin sp_url).
  by rewrite collected_plugins.
Qed.

End RepoPluginsFacts.

(** X28: getRepoPlugins returns null exactly when the repository file cannot
    be fetched; otherwise every returned item carries the repository URL it
    was asked for, the plugins returned are the plugins of the repository's
    lists in list order with only the first plugin of each URL kept (a list
    that cannot be fetched contributes nothing), and every listed URL occurs
    exactly once.  Asking with the github.com form of a URL or with its
    converted form returns the same plugins. *)
Theorem getRepoPlugins_lists_each_url_once
    (net : RepositoryService.Net) (repositoryUrl : jsstring) :
  match RepositoryService.getRepoPlugins net repositoryUrl with
  | None => RepositoryService.parseRepository net repositoryUrl = None
  | Some items =>
      exists repo,
        RepositoryService.parseRepository net repositoryUrl = Some repo
        /\ Forall (fun item =>
                     RepositoryService.item_repositoryUrl item = repositoryUrl)
             items
        /\ RepositoryService.item_plugin <$> items
           = firstPer sp_url [] (listedPlugins net repo)
        /\ NoDup (itemUrl <$> items)
        /\ (forall u, u ∈ itemUrl <$> items
                      <-> u ∈ sp_url <$> listedPlugins net repo)
  end
  /\ fmap (M := list) RepositoryService.item_plugin
       <$> RepositoryService.getRepoPlugins net
             (RepositoryService.convertRawGitUrl repositoryUrl)
     = fmap (M := list) RepositoryService.item_plugin
         <$> RepositoryService.getRepoPlugins net repositoryUrl.
Proof.
  split.
  - pose proof (getRepoPlugins_plugins net repositoryUrl) as Hp.
    unfold RepositoryService.getRepoPlugins in *.
    destruct (RepositoryService.parseRepository net repositoryUrl)
      as [repo|]; [|done].
    cbn [fmap option_fmap option_map] in Hp. injection Hp as Hp.
    exists repo. split; [done|]. split.
    { rewrite uniquePlugins_firstPer. apply Forall_forall. intros item Hin.
      eapply elem_of_sublist in Hin; [|apply firstPer_sublist].
      pose proof (collected_tags net repositoryUrl
                    (RepositoryService.pluginLists repo)) as Htags.
      rewrite Forall_forall in Htags. by apply Htags. }
    split; [done|].
    assert (Hurls : forall l : list RepositoryService.Item,
               itemUrl <$> l = sp_url <$> (RepositoryService.item_plugin <$> l)).
    { intros l. by rewrite <- list_fmap_compose. }
    rewrite Hurls, Hp.
    destruct (firstPer_keys sp_url [] (listedPlugins net repo)) as [Hnd Hiff].
    split; [done|]. intros u. rewrite Hiff. split; [tauto|].
    intros Hu. split; [done|]. apply not_elem_of_nil.
  - rewrite !getRepoPlugins_plugins. unfold RepositoryService.parseRepository.
    by rewrite convertRawGitUrl_idem.
Qed.

Section GuardFacts.

Lemma ltb_true x y :
  (x <? y)%float = true -> SFcompare (Prim2SF x) (Prim2SF y) = Some Lt.
Proof.
  rewrite ltb_spec. unfold SFltb.
  by destruct (SFcompare (Prim2SF x) (Prim2SF y)) as [[]|].
Qed.

(** [x < y] excludes [y < x]. *)
Lemma ltb_asym x y : (x <? y)%float = true -> (y <? x)%float = false.
Proof.
  intros H%ltb_true. rewrite ltb_spec. unfold SFltb.
  by rewrite SFcompare_antisym, H.
Qed.

Lemma SFcompare_refl a : a <> S754_nan -> SFcompare a a = Some Eq.
Proof.
  destruct a as [s|s| |s m e]; intros H; try done; try by destruct s.
  cbn [SFcompare]. rewrite Z.compare_refl.
  change (Pos.compare_cont Eq m m) with (m ?= m)%positive.
  rewrite Pos.compare_refl. by destruct s.
Qed.

Lemma is_nan_Prim2SF x : Prim2SF x <> S754_nan -> is_nan x = false.
Proof.
  intros H. unfold is_nan. rewrite FloatAxioms.eqb_spec. unfold SFeqb.
  by rewrite SFcompare_refl.
Qed.

(** A comparison that holds has numbers on both sides. *)
Lemma ltb_numbers x y :
  (x <? y)%float = true -> is_nan x = false /\ is_nan y = false.
Proof.
  intros H%ltb_true. split; apply is_nan_Prim2SF; intros E;
    rewrite E in H; [done|]. by destruct (Prim2SF x).
Qed.

Lemma is_finite_Prim2SF x :
  (forall s, Prim2SF x <> S754_infinity s) -> Prim2SF x <> S754_nan ->
  is_finite x = true.
Proof.
  intros Hinf Hnan. unfold is_finite. rewrite (is_nan_Prim2SF x Hnan).
  unfold is_infinity. rewrite FloatAxioms.eqb_spec, abs_spec.
  change (Prim2SF infinity) with (S754_infinity false).
  destruct (Prim2SF x) as [s|s| |s m e]; try done.
  by destruct (Hinf s).
Qed.

End GuardFacts.

(** X29: a position that the player page saves is one that shouldResume
    accepts when it is given back unchanged: whenever the page's test
    (duration > 0, currentTime > 10, currentTime / duration < 0.9) lets
    saveResumePosition be called, shouldResume answers true for the saved
    position and duration; the saved position is a finite number and the
    saved duration is not NaN. *)
Theorem saved_position_is_resumable
    (currentTime duration now : float) (videoUrl : string)
    (episodeName : option string) :
  PlayerPage.savesPosition currentTime duration = true ->
  ResumeService.shouldResume
    (Some {| ResumeService.position := currentTime;
             ResumeService.duration := duration;
             ResumeService.lastUpdated := now;
             ResumeService.episodeUrl := videoUrl;
             ResumeService.episodeName := episodeName |}) = true
  /\ is_finite currentTime = true
  /\ is_nan duration = false.
Proof.
  unfold PlayerPage.savesPosition.
  intros [Hd [Ht Hr]%andb_true_iff]%andb_true_iff.
  split; [|split].
  - unfold ResumeService.shouldResume.
    cbn [ResumeService.position ResumeService.duration].
    by rewrite (ltb_asym _ _ Ht), Hd, (ltb_asym _ _ Hr).
  - apply ltb_true in Ht as Ht', Hd as Hd', Hr as Hr'.
    rewrite div_spec in Hr'.
    apply is_finite_Prim2SF.
    + intros s Hs. rewrite Hs in Ht', Hr'.
      destruct s; [by vm_compute in Ht'|].
      destruct (Prim2SF duration) as [sd|sd| |sd md ed];
        try destruct sd; vm_compute in Hd', Hr'; done.
    + intros Hs. rewrite Hs in Ht'. by vm_compute in Ht'.
  - by apply ltb_numbers in Hd as [_ ?].
Qed.

Lemma saved_position_is_resumable_witness :
  PlayerPage.savesPosition 60 600 = true
  /\ ResumeService.shouldResume
       (Some {| ResumeService.position := 60;
                ResumeService.duration := 600;
                ResumeService.lastUpdated := 0;
                ResumeService.episodeUrl := "https://example.org/e1.mp4";
                ResumeService.episodeName := Some "Episode" |}) = true.
Proof.
  assert (H : PlayerPage.savesPosition 60 600 = true) by reflexivity.
  split; [exact H|].
  exact (proj1 (saved_position_is_resumable 60 600 0
                  "https://example.org/e1.mp4" (Some "Episode") H)).
Defined.
